(** * devlib/instrument/acmecape.py: the ACME cape instrument

    A shallow embedding of [AcmeCapeInstrument.stop], [_read_nonblock],
    [AcmeCapeInstrument.get_data] and its local class [DeviceReader],
    together with the properties of the capture supervisor and of the stream
    reader that the specification states about them.

    Python objects that the code shares by reference (the [Popen] handles)
    live in an explicit store; exceptions are values of [PyExc]; loops that
    Python writes as [while] take a fuel argument and return [None] when the
    fuel runs out before the loop is left. *)

From Stdlib Require Import ZArith String Ascii List Bool Lia.
From Stdlib Require Import Decimal DecimalString DecimalPos.
From stdpp Require Import base option list gmap strings.
Import ListNotations.

Local Open Scope string_scope.
Local Open Scope list_scope.

(** ** Python values and exceptions *)

(** The three [HostError]s that [stop] raises, by their message. *)
Inductive HostErrorMsg :=
| CouldNotTerminate (output : string)
    (* 'Could not terminate iio-capture:\n{}' *)
| ExitedWithError (returncode : option Z) (output : string)
    (* 'iio-capture exited with an error ({}), output:\n{}' *)
| OutputCsvNotGenerated.
    (* 'Output CSV not generated.' *)

Inductive PyExc :=
| AttributeError
| KeyError
| TypeError
| IndexError
| ValueError
| StopIteration
| IOError
| OSError
| HostError (msg : HostErrorMsg).

Inductive result (A : Type) :=
| Ok (a : A)
| Raise (e : PyExc).
Arguments Ok {A} a.
Arguments Raise {A} e.

Definition rbind {A B} (r : result A) (k : A -> result B) : result B :=
  match r with
  | Ok a => k a
  | Raise e => Raise e
  end.

Declare Scope py_scope.
Delimit Scope py_scope with py.
Notation "x <- c1 ;; c2" := (rbind c1 (fun x => c2))
  (at level 100, c1 at next level, right associativity) : py_scope.
Local Open Scope py_scope.

(** The values a [csv.DictReader] row holds under a field name: the text of
    the field, or [None] (the reader's [restval]) where the row is shorter
    than the header. *)
Inductive PyVal :=
| PyNone
| PyStr (s : string).

(** [<] of Python 2 on these values: [None] sorts before every string, and
    strings compare byte by byte. *)
Definition py_lt (a b : PyVal) : bool :=
  match a, b with
  | PyNone, PyNone => false
  | PyNone, PyStr _ => true
  | PyStr _, PyNone => false
  | PyStr s, PyStr t => String.ltb s t
  end.

(** What stands between the brackets of a subscript [l[k]]. *)
Inductive PySubscript :=
| SubInt (i : Z)
| SubStr (s : string).

(** [list.__getitem__]: integer indices, negative ones counted from the
    end; any other index type is a [TypeError]. *)
Definition list_getitem (l : list PyVal) (k : PySubscript) : result PyVal :=
  match k with
  | SubInt i =>
      let n := Z.of_nat (List.length l) in
      let j := if (i <? 0)%Z then (i + n)%Z else i in
      if ((0 <=? j) && (j <? n))%Z
      then match nth_error l (Z.to_nat j) with
           | Some v => Ok v
           | None => Raise IndexError
           end
      else Raise IndexError
  | SubStr _ => Raise TypeError
  end.

(** [d[k]] on a dict. *)
Definition dict_getitem {V} (d : gmap string V) (k : string) : result V :=
  match d !! k with
  | Some v => Ok v
  | None => Raise KeyError
  end.

(** [[f(x) for x in l]], left to right, stopping at the first exception. *)
Fixpoint list_comp {A B} (f : A -> result B) (l : list A) : result (list B) :=
  match l with
  | [] => Ok []
  | x :: rest =>
      y <- f x ;;
      ys <- list_comp f rest ;;
      Ok (y :: ys)
  end.

(** ** Files and [csv.DictReader] *)

(** What the code observes of a file: its size ([os.stat(..).st_size]) and
    the rows [csv.reader(.., skipinitialspace=True)] yields for it, a blank
    line being the row [[]]. *)
Record File := {
  st_size : N;
  csv_rows : list (list string)
}.

Record DictReader := {
  dr_rows : list (list string);          (* what the underlying reader has left *)
  dr_fieldnames : option (list string)   (* [_fieldnames]; [None] until the header is read *)
}.

(** [row = self.reader.next(); while row == []: row = self.reader.next()] *)
Fixpoint next_nonblank (rows : list (list string))
  : option (list string * list (list string)) :=
  match rows with
  | [] => None
  | [] :: rest => next_nonblank rest
  | (f :: fs) :: rest => Some (f :: fs, rest)
  end.

(** [dict(zip(fieldnames, row))], a later duplicate name overwriting an
    earlier one, then [restval = None] under the names the row does not
    reach.  The entry a longer row gets under the key [None]
    ([restkey]) is left out: no string key reads it. *)
Definition row_dict (fieldnames row : list string) : gmap string PyVal :=
  let d := fold_left (fun m kv => <[fst kv := PyStr (snd kv)]> m)
                     (combine fieldnames row) ∅ in
  fold_left (fun m k => <[k := PyNone]> m)
            (drop (List.length row) fieldnames) d.

(** The [fieldnames] property: the first row, read on first use. *)
Definition DictReader_fieldnames (d : DictReader) : DictReader :=
  match dr_fieldnames d, dr_rows d with
  | None, h :: rest => {| dr_rows := rest; dr_fieldnames := Some h |}
  | _, _ => d
  end.

(** [DictReader.next()]: the reader after the call and the row, or
    [StopIteration] once the rows are used up. *)
Definition DictReader_next (d : DictReader)
  : DictReader * result (gmap string PyVal) :=
  let d1 := DictReader_fieldnames d in
  match next_nonblank (dr_rows d1) with
  | None =>
      ({| dr_rows := []; dr_fieldnames := dr_fieldnames d1 |},
       Raise StopIteration)
  | Some (row, rest) =>
      match dr_fieldnames d1 with
      | Some fieldnames =>
          ({| dr_rows := rest; dr_fieldnames := Some fieldnames |},
           Ok (row_dict fieldnames row))
      | None =>
          ({| dr_rows := rest; dr_fieldnames := None |}, Raise TypeError)
      end
  end.

(** ** The local class [DeviceReader] of [get_data] *)

Record DeviceReader := {
  _reader : DictReader;
  _current_row : gmap string PyVal;
  columns : list string;
  finished : bool
}.

(** [DeviceReader.__init__]: opens the file ([IOError] when it is not
    there) and reads the first row. *)
Definition DeviceReader_init (fs : gmap string File)
    (raw_data_file : string) (cols : list string) : result DeviceReader :=
  match fs !! raw_data_file with
  | None => Raise IOError
  | Some f =>
      let r := {| dr_rows := csv_rows f; dr_fieldnames := None |} in
      match DictReader_next r with
      | (r', Ok row) =>
          Ok {| _reader := r'; _current_row := row;
                columns := cols; finished := false |}
      | (_, Raise e) => Raise e
      end
  end.

Definition timestamp (self : DeviceReader) : result PyVal :=
  dict_getitem (_current_row self) "timestamp ms".

Definition current_row (self : DeviceReader) : result (list PyVal) :=
  list_comp (dict_getitem (_current_row self)) (columns self).

Definition pop_row (self : DeviceReader) : result DeviceReader :=
  match DictReader_next (_reader self) with
  | (r', Ok row) =>
      Ok {| _reader := r'; _current_row := row;
            columns := columns self; finished := finished self |}
  | (r', Raise StopIteration) =>
      Ok {| _reader := r'; _current_row := _current_row self;
            columns := columns self; finished := true |}
  | (_, Raise e) => Raise e
  end.

(** ** Channels and the instrument *)

(** An [InstrumentChannel] as [get_data] reads it. *)
Record Channel := {
  label : string;
  kind : string;
  iio_device : string;
  iio_column : string
}.

(** A [Popen] object is named by its place in the store of processes. *)
Definition handle := nat.

(** The attributes of [self] that [stop] and [get_data] read.  [process] is
    the attribute [self.process]: no method of the class assigns it, so it
    is [None] (reading it is an [AttributeError]) unless something outside
    the class has set it. *)
Record AcmeCapeInstrument := {
  iio_devices : list string;
  raw_data_files : list string;
  active_channels : list Channel;
  processes : list handle;
  process : option handle;
  sample_rate_hz : Z
}.

Record MeasurementsCsv := {
  path : string;
  channels : list Channel;
  sample_rate : Z
}.

(** ** [get_data] *)

(** [min(iterable, key=..)]: the first element, in iteration order, whose
    key no other element's key is below. *)
Fixpoint min_loop {A} (key : A -> result PyVal) (l : list A)
    (best : A) (kbest : PyVal) : result A :=
  match l with
  | [] => Ok best
  | x :: rest =>
      kx <- key x ;;
      if py_lt kx kbest then min_loop key rest x kx
      else min_loop key rest best kbest
  end.

Definition py_min {A} (key : A -> result PyVal) (l : list A) : result A :=
  match l with
  | [] => Raise ValueError
  | x :: rest => kx <- key x ;; min_loop key rest x kx
  end.

(** [set.remove(x)] with [x] a [DeviceReader] on a set of device names: an
    object of a class without [__eq__] equals no string, so the element is
    never found. *)
Definition set_remove_reader (s : gset string) (x : DeviceReader)
  : result (gset string) :=
  Raise KeyError.

(** The loop over [zip(self.iio_devices, self.raw_data_files)] that fills
    [readers]; [os.stat] of a path that is not there is an [OSError]. *)
Fixpoint open_readers (fs : gmap string File) (chs : list Channel)
    (active_devices : gset string) (files : list (string * string))
    (readers : gmap string DeviceReader)
  : result (gmap string DeviceReader) :=
  match files with
  | [] => Ok readers
  | (device, raw_data_file) :: rest =>
      if decide (device ∈ active_devices) then
        match fs !! raw_data_file with
        | None => Raise OSError
        | Some f =>
            if (st_size f =? 0)%N then
              open_readers fs chs active_devices rest readers
            else
              let cols :=
                map iio_column
                    (List.filter (fun c => String.eqb (iio_device c) device) chs) in
              r <- DeviceReader_init fs raw_data_file cols ;;
              open_readers fs chs active_devices rest (<[device := r]> readers)
        end
      else open_readers fs chs active_devices rest readers
  end.

(** The [for channel in self.active_channels] loop that builds one row. *)
Fixpoint build_row (readers : gmap string DeviceReader)
    (chs : list Channel) (row : list PyVal) : result (list PyVal) :=
  match chs with
  | [] => Ok row
  | channel :: rest =>
      reader <- dict_getitem readers (iio_device channel) ;;
      cr <- current_row reader ;;
      v <- list_getitem cr (SubStr (iio_column channel)) ;;
      build_row readers rest (row ++ [v])
  end.

(** The [while active_devices] loop.  The first component is what has been
    written to [outfile] so far; the second is [None] when the fuel ran out
    with the loop still going. *)
Fixpoint merge_loop (fuel : nat) (chs : list Channel)
    (readers : gmap string DeviceReader) (active_devices : gset string)
    (written : list (list PyVal))
  : list (list PyVal) * option (result unit) :=
  match fuel with
  | O => (written, None)
  | S fuel' =>
      match elements active_devices with
      | [] => (written, Some (Ok tt))
      | _ :: _ =>
          match build_row readers chs [] with
          | Raise e => (written, Some (Raise e))
          | Ok row =>
              let written' := written ++ [row] in
              let step :=
                device_to_pop <-
                  py_min (fun d => r <- dict_getitem readers d ;; timestamp r)
                         (elements active_devices) ;;
                reader_to_pop <- dict_getitem readers device_to_pop ;;
                if finished reader_to_pop
                then set_remove_reader active_devices reader_to_pop
                else Ok active_devices in
              match step with
              | Raise e => (written', Some (Raise e))
              | Ok active_devices' =>
                  merge_loop fuel' chs readers active_devices' written'
              end
          end
      end
  end.

(** What a call of [get_data] leaves behind: the rows of [outfile] ([None]
    when the file was never opened for writing) and how the call ended
    ([None]: the fuel ran out inside the merge loop). *)
Record Retrieval := {
  outfile_rows : option (list (list PyVal));
  ended : option (result MeasurementsCsv)
}.

Definition get_data (fuel : nat) (fs : gmap string File)
    (self : AcmeCapeInstrument) (outfile : string) : Retrieval :=
  let active_devices : gset string :=
    list_to_set (map iio_device (active_channels self)) in
  match open_readers fs (active_channels self) active_devices
          (combine (iio_devices self) (raw_data_files self)) ∅ with
  | Raise e => {| outfile_rows := None; ended := Some (Raise e) |}
  | Ok readers =>
      let header := map (fun c => PyStr (label c)) (active_channels self) in
      match merge_loop fuel (active_channels self) readers active_devices
              [header] with
      | (written, None) =>
          {| outfile_rows := Some written; ended := None |}
      | (written, Some (Raise e)) =>
          {| outfile_rows := Some written; ended := Some (Raise e) |}
      | (written, Some (Ok _)) =>
          {| outfile_rows := Some written;
             ended := Some (Ok {| path := outfile;
                                  channels := active_channels self;
                                  sample_rate := sample_rate_hz self |}) |}
      end
  end.

(** ** Processes and the world [stop] runs in *)

Definition SIGTERM : Z := 15.
Definition SIGKILL : Z := 9.

(** A [Popen] object with the process behind it.  Time is counted in the
    seconds [time.sleep] lets pass. *)
Record Popen := {
  returncode : option Z;
    (* the attribute: [None] until a [poll] has seen the process gone *)
  exit_at : option (nat * Z);
    (* when the process ends and with which status, as things stand;
       [None]: it keeps running *)
  on_sigterm : option (nat * Z);
    (* seconds from a SIGTERM to its end and the status it then leaves;
       [None]: it ignores the signal *)
  on_sigkill : option nat;
    (* seconds from a SIGKILL to its end; [None]: it does not end *)
  signalled : list Z;
    (* the signals sent to it, latest first *)
  stdout : string;
    (* what is in the pipe and has not been read *)
  nonblock : bool
    (* O_NONBLOCK on the pipe's descriptor *)
}.

Record World := {
  now : nat;
  store : handle -> Popen;
  files : gmap string File;
  errors_logged : list string
}.

Definition upd (w : World) (h : handle) (p : Popen) : World :=
  {| now := now w;
     store := fun h' => if Nat.eqb h' h then p else store w h';
     files := files w;
     errors_logged := errors_logged w |}.

(** Code that reads and changes the world, may raise, and may fail to
    return ([None]). *)
Definition Py (A : Type) := World -> option (result A * World).

Definition ret {A} (a : A) : Py A := fun w => Some (Ok a, w).
Definition raise {A} (e : PyExc) : Py A := fun w => Some (Raise e, w).
Definition bind {A B} (c : Py A) (k : A -> Py B) : Py B :=
  fun w =>
    match c w with
    | None => None
    | Some (Raise e, w') => Some (Raise e, w')
    | Some (Ok a, w') => k a w'
    end.

Notation "x <~ c1 ;; c2" := (bind c1 (fun x => c2))
  (at level 100, c1 at next level, right associativity) : py_scope.

(** Has the process ended by the time [t]? *)
Definition ended_by (t : nat) (p : Popen) : bool :=
  match exit_at p with
  | Some (te, _) => (te <=? t)%nat
  | None => false
  end.

(** The process after a signal sent at the time [t]: unless it ends sooner
    anyway, it ends [d] seconds on with [status] when [reaction = Some d]. *)
Definition deliver (sig : Z) (reaction : option nat) (status : Z)
    (t : nat) (p : Popen) : Popen :=
  {| returncode := returncode p;
     exit_at :=
       match reaction, exit_at p with
       | Some d, Some (te, _) =>
           if (t + d <? te)%nat then Some (t + d, status) else exit_at p
       | Some d, None => Some (t + d, status)
       | None, _ => exit_at p
       end;
     on_sigterm := on_sigterm p;
     on_sigkill := on_sigkill p;
     signalled := sig :: signalled p;
     stdout := stdout p;
     nonblock := nonblock p |}.

(** [os.kill(pid, sig)]: an [OSError] once the process has been reaped. *)
Definition send_signal (sig : Z) (reaction : option nat) (status : Z)
    (h : handle) : Py unit :=
  fun w =>
    let p := store w h in
    match returncode p with
    | Some _ => Some (Raise OSError, w)
    | None => Some (Ok tt, upd w h (deliver sig reaction status (now w) p))
    end.

Definition Popen_terminate (h : handle) : Py unit :=
  fun w =>
    let p := store w h in
    send_signal SIGTERM (option_map fst (on_sigterm p))
                (match on_sigterm p with Some (_, s) => s | None => 0%Z end)
                h w.

Definition Popen_kill (h : handle) : Py unit :=
  fun w => send_signal SIGKILL (on_sigkill (store w h)) (- SIGKILL)%Z h w.

(** [Popen.poll()] *)
Definition Popen_poll (h : handle) : Py (option Z) :=
  fun w =>
    let p := store w h in
    match returncode p, exit_at p with
    | Some rc, _ => Some (Ok (Some rc), w)
    | None, Some (te, s) =>
        if (te <=? now w)%nat
        then Some (Ok (Some s),
                   upd w h {| returncode := Some s; exit_at := exit_at p;
                              on_sigterm := on_sigterm p;
                              on_sigkill := on_sigkill p;
                              signalled := signalled p;
                              stdout := stdout p; nonblock := nonblock p |})
        else Some (Ok None, w)
    | None, None => Some (Ok None, w)
    end.

Definition sleep (secs : nat) : Py unit :=
  fun w => Some (Ok tt, {| now := now w + secs; store := store w;
                           files := files w;
                           errors_logged := errors_logged w |}).

Definition logger_error (msg : string) : Py unit :=
  fun w => Some (Ok tt, {| now := now w; store := store w; files := files w;
                           errors_logged := errors_logged w ++ [msg] |}).

Definition set_pipe (p : Popen) (buf : string) (nb : bool) : Popen :=
  {| returncode := returncode p; exit_at := exit_at p;
     on_sigterm := on_sigterm p; on_sigkill := on_sigkill p;
     signalled := signalled p; stdout := buf; nonblock := nb |}.

(** [flags = fcntl(fd, F_GETFL); flags |= os.O_NONBLOCK; fcntl(fd, F_SETFL, flags)] *)
Definition set_nonblock (h : handle) : Py unit :=
  fun w => Some (Ok tt, upd w h (set_pipe (store w h) (stdout (store w h)) true)).

(** [pipe.read(size)] with O_NONBLOCK set: up to [size] characters of what
    is there; with nothing there, [''] at end of file (the writer is gone)
    and an [IOError] otherwise. *)
Definition pipe_read_size (h : handle) (size : nat) : Py string :=
  fun w =>
    let p := store w h in
    match stdout p with
    | EmptyString =>
        if ended_by (now w) p then Some (Ok "", w) else Some (Raise IOError, w)
    | _ =>
        Some (Ok (substring 0 size (stdout p)),
              upd w h (set_pipe p (substring size
                                     (String.length (stdout p) - size)
                                     (stdout p))
                                (nonblock p)))
    end.

(** [pipe.read()]: everything up to end of file.  A blocking pipe waits for
    the writer to end, for ever when it does not; a pipe with O_NONBLOCK
    set whose writer still runs gives what is there, and an [IOError] when
    nothing is. *)
Definition pipe_read (h : handle) : Py string :=
  fun w =>
    let p := store w h in
    let w' := upd w h (set_pipe p "" (nonblock p)) in
    if ended_by (now w) p then Some (Ok (stdout p), w')
    else if nonblock p then
      match stdout p with
      | EmptyString => Some (Raise IOError, w)
      | _ => Some (Ok (stdout p), w')
      end
    else
      match exit_at p with
      | Some (te, _) =>
          Some (Ok (stdout p),
                {| now := te; store := store w'; files := files w';
                   errors_logged := errors_logged w' |})
      | None => None
      end.

(** ** [_read_nonblock] *)

(** [while True: output += pipe.read(size)], left through the [IOError]. *)
Fixpoint read_loop (fuel : nat) (pipe : handle) (size : nat)
    (output : string) : Py string :=
  match fuel with
  | O => fun _ => None
  | S fuel' =>
      fun w =>
        match pipe_read_size pipe size w with
        | None => None
        | Some (Ok chunk, w') =>
            read_loop fuel' pipe size (output ++ chunk)%string w'
        | Some (Raise IOError, w') => Some (Ok output, w')
        | Some (Raise e, w') => Some (Raise e, w')
        end
  end.

Definition _read_nonblock (fuel : nat) (pipe : handle) (size : nat)
  : Py string :=
  _ <~ set_nonblock pipe ;;
  read_loop fuel pipe size "".

(** ** [stop] *)

(** [self.process] *)
Definition self_process (self : AcmeCapeInstrument) : Py handle :=
  match process self with
  | Some h => ret h
  | None => raise AttributeError
  end.

Definition get_returncode (h : handle) : Py (option Z) :=
  fun w => Some (Ok (returncode (store w h)), w).

Definition isfile (f : string) : Py bool :=
  fun w => Some (Ok (bool_decide (is_Some (files w !! f))), w).

(** [for _ in xrange(n): if process.poll() is not None: break; time.sleep(1)];
    [true] when the loop was left by [break]. *)
Fixpoint poll_loop (n : nat) (process : handle) : Py bool :=
  match n with
  | O => ret false
  | S n' =>
      r <~ Popen_poll process ;;
      match r with
      | Some _ => ret true
      | None => _ <~ sleep 1 ;; poll_loop n' process
      end
  end.

(** The body of the [for process, raw_data_file in zip(..)] loop. *)
Definition stop_body (fuel : nat) (self : AcmeCapeInstrument)
    (process : handle) (raw_data_file : string) : Py unit :=
  _ <~ Popen_terminate process ;;
  let timeout_secs := 10 in
  let output := "" in
  broke <~ poll_loop timeout_secs process ;;
  output <~
    (if broke : bool then ret output
     else
       p <~ self_process self ;;
       drained <~ _read_nonblock fuel p 1024 ;;
       let output := (output ++ drained)%string in
       p <~ self_process self ;;
       _ <~ Popen_kill p ;;
       _ <~ logger_error "iio-capture did not terminate gracefully" ;;
       r <~ Popen_poll process ;;
       match r with
       | None => raise (HostError (CouldNotTerminate output))
       | Some _ => ret output
       end) ;;
  p <~ self_process self ;;
  rc <~ get_returncode p ;;
  if bool_decide (rc = Some 15%Z) then
    there <~ isfile raw_data_file ;;
    if there : bool then ret tt
    else raise (HostError OutputCsvNotGenerated)
  else
    p <~ self_process self ;;
    rest <~ pipe_read p ;;
    let output := (output ++ rest)%string in
    p <~ self_process self ;;
    rc <~ get_returncode p ;;
    raise (HostError (ExitedWithError rc output)).

Fixpoint stop_loop (fuel : nat) (self : AcmeCapeInstrument)
    (l : list (handle * string)) : Py unit :=
  match l with
  | [] => ret tt
  | (process, raw_data_file) :: rest =>
      _ <~ stop_body fuel self process raw_data_file ;;
      stop_loop fuel self rest
  end.

Definition stop (fuel : nat) (self : AcmeCapeInstrument) : Py unit :=
  stop_loop fuel self (combine (processes self) (raw_data_files self)).

(** How a run ended, without the world it left. *)
Definition outcome {A} (r : option (result A * World)) : option (result A) :=
  option_map fst r.

(** ** [reset] and the command lines [start] launches *)

(** The attributes [__init__] takes from its arguments and [reset] reads. *)
Record Settings := {
  iio_capture : string;
  host : string;
  buffer_size : Z
}.

(** [str(n)] of an integer: its decimal digits, a [-] before them when it is
    negative. *)
Definition str_of_int (n : Z) : string :=
  NilEmpty.string_of_int (Z.to_int n).

Definition newline : string := String "010" "".

(** [IIOCAP_CMD_TEMPLATE.substitute] on the parameters of [reset]: the template is a line
    break, [${iio_capture} -n ${host} -b ${buffer_size} -c -f ${outfile}
    ${iio_device}] and a line break. *)
Definition substitute (cfg : Settings) (outfile iio_device : string) : string :=
  (newline ++ iio_capture cfg ++ " -n " ++ host cfg ++ " -b " ++
   str_of_int (buffer_size cfg) ++ " -c -f " ++ outfile ++ " " ++
   iio_device ++ newline)%string.

(** What [reset] sets up: [self.commands], [self.raw_data_files], the lines
    it logs at debug level, and the files on disk. *)
Record Bookkeeping := {
  commands : list string;
  raw_files : list string;
  debug_log : list string;
  disk : gmap string File
}.

(** The loop of [reset] over [self.iio_devices].  [tempfile.mkstemp(suffix)]
    makes a new file of length zero and returns its path, a directory and a
    fresh name of its choice followed by the suffix; [stems n] is what the
    call number [n] puts before the suffix.  The debug line formats
    [self.command], which [__init__] sets to [None] and nothing changes.
    The base class's own [reset], which picks the active channels, is not
    part of this file's code. *)
Fixpoint reset_loop (cfg : Settings) (stems : nat -> string) (n : nat)
    (devices : list string) (b : Bookkeeping) : Bookkeeping :=
  match devices with
  | [] => b
  | device :: rest =>
      let raw_data_file := (stems n ++ ("_" ++ device ++ ".csv"))%string in
      reset_loop cfg stems (S n) rest
        {| commands := commands b ++ [substitute cfg raw_data_file device];
           raw_files := raw_files b ++ [raw_data_file];
           debug_log := debug_log b ++ ["ACME cape command: None"];
           disk := <[raw_data_file := {| st_size := 0; csv_rows := [] |}]> (disk b) |}
  end.

Definition reset (cfg : Settings) (stems : nat -> string)
    (devices : list string) (fs : gmap string File) : Bookkeeping :=
  reset_loop cfg stems 0 devices
    {| commands := []; raw_files := []; debug_log := []; disk := fs |}.

(** [s.split()]: the words of [s], cut at runs of white space. *)
Fixpoint split_go (cur : option string) (s : string) : list string :=
  match s with
  | EmptyString =>
      match cur with Some word => [word] | None => [] end
  | String a s' =>
      if Ascii.is_space a then
        match cur with
        | Some word => word :: split_go None s'
        | None => split_go None s'
        end
      else
        split_go (Some (match cur with
                        | Some word => (word ++ String a "")%string
                        | None => String a ""
                        end)) s'
  end.

Definition py_split (s : string) : list string := split_go None s.

(** The argument lists [start] hands to [Popen], one for each command, in
    the order of the commands. *)
Definition start_argv (cmds : list string) : list (list string) :=
  map py_split cmds.

Fixpoint has_space (s : string) : bool :=
  match s with
  | EmptyString => false
  | String a s' => Ascii.is_space a || has_space s'
  end.

(** ** Concrete artifacts, channels and instruments *)

Definition mk_channel (lbl dev col : string) : Channel :=
  {| label := lbl; kind := "voltage"; iio_device := dev; iio_column := col |}.

Definition mk_instrument (devs raws : list string) (chs : list Channel)
    (procs : list handle) (proc : option handle) : AcmeCapeInstrument :=
  {| iio_devices := devs; raw_data_files := raws; active_channels := chs;
     processes := procs; process := proc; sample_rate_hz := 100 |}.

(** Device [X]: header [timestamp ms, vbus mV], rows [(0,100)] and
    [(10,105)]. *)
Definition artifact_X : File :=
  {| st_size := 41;
     csv_rows := [["timestamp ms"; "vbus mV"]; ["0"; "100"]; ["10"; "105"]] |}.

(** Devices [A] (timestamps 0, 10, 20) and [B] (timestamps 0, 5, 15, 25). *)
Definition artifact_A : File :=
  {| st_size := 48;
     csv_rows := [["timestamp ms"; "vbus mV"];
                  ["0"; "1"]; ["10"; "2"]; ["20"; "3"]] |}.

Definition artifact_B : File :=
  {| st_size := 55;
     csv_rows := [["timestamp ms"; "vbus mV"];
                  ["0"; "4"]; ["5"; "5"]; ["15"; "6"]; ["25"; "7"]] |}.

(** A device whose capture wrote nothing. *)
Definition artifact_empty : File := {| st_size := 0; csv_rows := [] |}.

(** A device with a power column. *)
Definition artifact_P : File :=
  {| st_size := 32;
     csv_rows := [["timestamp ms"; "power mW"]; ["0"; "7"]; ["10"; "8"]] |}.

Definition fs_X : gmap string File := {[ "/tmp/X.csv" := artifact_X ]}.

Definition fs_AB : gmap string File :=
  <["/tmp/A.csv" := artifact_A]> {[ "/tmp/B.csv" := artifact_B ]}.

Definition fs_degraded : gmap string File :=
  <["/tmp/E.csv" := artifact_empty]> {[ "/tmp/X.csv" := artifact_X ]}.

Definition fs_P : gmap string File := {[ "/tmp/P.csv" := artifact_P ]}.

Definition instrument_X : AcmeCapeInstrument :=
  mk_instrument ["X"] ["/tmp/X.csv"] [mk_channel "bus_X" "X" "vbus mV"] [] None.

Definition instrument_AB : AcmeCapeInstrument :=
  mk_instrument ["A"; "B"] ["/tmp/A.csv"; "/tmp/B.csv"]
    [mk_channel "bus_A" "A" "vbus mV"; mk_channel "bus_B" "B" "vbus mV"]
    [] None.

Definition instrument_degraded : AcmeCapeInstrument :=
  mk_instrument ["E"; "X"] ["/tmp/E.csv"; "/tmp/X.csv"]
    [mk_channel "bus_E" "E" "vbus mV"; mk_channel "bus_X" "X" "vbus mV"]
    [] None.

Definition instrument_P : AcmeCapeInstrument :=
  mk_instrument ["P"] ["/tmp/P.csv"]
    [mk_channel "device_P_power" "P" "power mW";
     mk_channel "device_P_again" "P" "power mW"]
    [] None.

(** The readers a program can hold: made by [__init__], then advanced any
    number of times. *)
Inductive reachable : DeviceReader -> Prop :=
| reach_init fs raw_data_file cols r :
    DeviceReader_init fs raw_data_file cols = Ok r -> reachable r
| reach_pop r r' :
    reachable r -> pop_row r = Ok r' -> reachable r'.

(** The reader over [artifact_X] once both of its rows have been passed. *)
Definition reader_X_exhausted : DeviceReader :=
  {| _reader := {| dr_rows := [];
                   dr_fieldnames := Some ["timestamp ms"; "vbus mV"] |};
     _current_row := row_dict ["timestamp ms"; "vbus mV"] ["10"; "105"];
     columns := ["vbus mV"];
     finished := true |}.

(** An artifact whose header has no [vbus mV] column. *)
Definition artifact_no_vbus : File :=
  {| st_size := 20; csv_rows := [["timestamp ms"]; ["0"]; ["10"]] |}.

Definition fs_no_vbus : gmap string File :=
  {[ "/tmp/N.csv" := artifact_no_vbus ]}.

(** The header row [get_data] writes. *)
Definition header_of (self : AcmeCapeInstrument) : list PyVal :=
  map (fun c => PyStr (label c)) (active_channels self).

(** Every artifact of a device with an active channel is there, and is
    either zero-length or has a row after its header. *)
Definition artifacts_readable (fs : gmap string File)
    (self : AcmeCapeInstrument) : Prop :=
  forall device raw_data_file,
    (device, raw_data_file) ∈ combine (iio_devices self) (raw_data_files self) ->
    device ∈ map iio_device (active_channels self) ->
    exists f, fs !! raw_data_file = Some f /\
              (st_size f = 0%N \/ next_nonblank (tl (csv_rows f)) <> None).

(** Devices [F] (timestamps 10, 20) and [S] (timestamps 5, 15). *)
Definition artifact_F : File :=
  {| st_size := 36;
     csv_rows := [["timestamp ms"; "vbus mV"]; ["10"; "1"]; ["20"; "2"]] |}.

Definition artifact_S : File :=
  {| st_size := 35;
     csv_rows := [["timestamp ms"; "vbus mV"]; ["5"; "3"]; ["15"; "4"]] |}.

Definition fs_FS : gmap string File :=
  <["/tmp/F.csv" := artifact_F]> {[ "/tmp/S.csv" := artifact_S ]}.

Definition instrument_FS : AcmeCapeInstrument :=
  mk_instrument ["F"; "S"] ["/tmp/F.csv"; "/tmp/S.csv"]
    [mk_channel "bus_F" "F" "vbus mV"; mk_channel "bus_S" "S" "vbus mV"]
    [] None.

(** The readers [get_data] opens for [instrument_FS], and its set of active
    devices. *)
Definition active_FS : gset string :=
  list_to_set (map iio_device (active_channels instrument_FS)).

Definition readers_FS : gmap string DeviceReader :=
  match open_readers fs_FS (active_channels instrument_FS) active_FS
          (combine (iio_devices instrument_FS) (raw_data_files instrument_FS))
          ∅ with
  | Ok readers => readers
  | Raise _ => ∅
  end.

(** The number a string of decimal digits writes. *)
Fixpoint decimal_digits (s : string) (acc : N) : option N :=
  match s with
  | EmptyString => Some acc
  | String c s' =>
      let n := N_of_ascii c in
      if ((48 <=? n) && (n <=? 57))%N
      then decimal_digits s' (acc * 10 + (n - 48))%N
      else None
  end.

Definition decimal_value (s : string) : option N :=
  match s with
  | EmptyString => None
  | _ => decimal_digits s 0%N
  end.

(** A reader that has been opened knows its header, and a finished one has
    no rows left. *)
Definition reader_inv (r : DeviceReader) : Prop :=
  is_Some (dr_fieldnames (_reader r)) /\
  (finished r = true -> dr_rows (_reader r) = []).

(** [key] is defined on [y] and puts it no lower than [k]. *)
Definition not_below {A} (key : A -> result PyVal) (k : PyVal) (y : A) : Prop :=
  exists ky, key y = Ok ky /\ py_lt ky k = false.

(** ** Concrete processes and worlds *)

Definition mk_process (term : option (nat * Z)) (kill : option nat)
    (out : string) : Popen :=
  {| returncode := None; exit_at := None; on_sigterm := term;
     on_sigkill := kill; signalled := []; stdout := out; nonblock := false |}.

Definition mk_world (procs : handle -> Popen) : World :=
  {| now := 0; store := procs; files := fs_AB; errors_logged := [] |}.

(** A capture that leaves with the status 15 one second after the SIGTERM. *)
Definition process_graceful : Popen := mk_process (Some (1, 15%Z)) (Some 0) "".

(** A capture that leaves with the status 1 one second after the SIGTERM. *)
Definition process_failing : Popen :=
  mk_process (Some (1, 1%Z)) (Some 0) "cannot open device".

(** A capture that ignores the SIGTERM and ends at once on the SIGKILL. *)
Definition process_stuck : Popen := mk_process None (Some 0) "partial".

(** A capture that ignores the SIGTERM and takes a second to end on the
    SIGKILL. *)
Definition process_slow_to_die : Popen := mk_process None (Some 1) "partial".

(** One device whose capture ends as it should; [self.process] as the
    class leaves it. *)
Definition world_graceful : World := mk_world (fun _ => process_graceful).

Definition instrument_one (proc : option handle) : AcmeCapeInstrument :=
  mk_instrument ["A"] ["/tmp/A.csv"] [] [0] proc.

(** Two devices: the capture of [A] ends as it should, the capture of [B]
    fails. *)
Definition world_B_fails : World :=
  mk_world (fun h => match h with O => process_graceful | _ => process_failing end).

Definition instrument_two (proc : option handle) : AcmeCapeInstrument :=
  mk_instrument ["A"; "B"] ["/tmp/A.csv"; "/tmp/B.csv"] [] [0; 1] proc.

Definition world_stuck : World := mk_world (fun _ => process_stuck).

Definition world_slow_to_die : World := mk_world (fun _ => process_slow_to_die).

(** The world [n] seconds on. *)
Definition later (n : nat) (w : World) : World :=
  {| now := now w + n; store := store w; files := files w;
     errors_logged := errors_logged w |}.

(** [w'] is [w] with the pipe of [h] read empty. *)
Definition drained (h : handle) (w w' : World) : Prop :=
  now w' = now w /\
  store w' h = set_pipe (store w h) "" (nonblock (store w h)).

(** [world_stuck] once the SIGTERM has been sent to the process. *)
Definition world_stuck_signalled : World :=
  upd world_stuck 0 (deliver SIGTERM None 0%Z 0 process_stuck).

(** [n] calls of [pop_row] in a row. *)
Fixpoint pop_rows (n : nat) (r : DeviceReader) : result DeviceReader :=
  match n with
  | O => Ok r
  | S n' => r' <- pop_row r ;; pop_rows n' r'
  end.

(** The rows a [DictReader] does not skip: the ones that are not blank. *)
Definition data_rows (rows : list (list string)) : list (list string) :=
  List.filter (fun row => match row with [] => false | _ => true end) rows.

(** The field of [row] at the place [i], as the row's dict holds it. *)
Definition field_at (row : list string) (i : nat) : PyVal :=
  match row !! i with
  | Some v => PyStr v
  | None => PyNone
  end.

(** An artifact with a blank line between its two rows, and one of whose
    rows is short. *)
Definition artifact_gaps : File :=
  {| st_size := 44;
     csv_rows := [["timestamp ms"; "vbus mV"]; ["0"; "100"]; []; ["10"]] |}.

Definition fs_gaps : gmap string File := {[ "/tmp/G.csv" := artifact_gaps ]}.

(** Devices [X] and [Y] with a channel active on [X] only; the artifact of
    [Y] is there in [fs_XY] and missing in [fs_X]. *)
Definition instrument_X_of_XY : AcmeCapeInstrument :=
  mk_instrument ["X"; "Y"] ["/tmp/X.csv"; "/tmp/Y.csv"]
    [mk_channel "bus_X" "X" "vbus mV"] [] None.

Definition fs_XY : gmap string File :=
  <["/tmp/Y.csv" := artifact_no_vbus]> fs_X.

(** The columns [get_data] asks of the reader of [device]. *)
Definition columns_of (chs : list Channel) (device : string) : list string :=
  map iio_column (List.filter (fun c => String.eqb (iio_device c) device) chs).

(** An instrument on which no channel is active. *)
Definition instrument_idle : AcmeCapeInstrument :=
  mk_instrument ["X"] ["/tmp/missing.csv"] [] [] None.

(** The reader over [artifact_X] as [get_data] opens it for the channel
    [bus_X], and the readers of [instrument_degraded]. *)
Definition reader_X_opened : DeviceReader :=
  {| _reader := {| dr_rows := [["10"; "105"]];
                   dr_fieldnames := Some ["timestamp ms"; "vbus mV"] |};
     _current_row := row_dict ["timestamp ms"; "vbus mV"] ["0"; "100"];
     columns := ["vbus mV"];
     finished := false |}.

Definition readers_degraded : gmap string DeviceReader :=
  {[ "X" := reader_X_opened ]}.

(** [c] changes no file, and no process outside [hs]. *)
Definition frames {A} (hs : handle -> Prop) (c : Py A) : Prop :=
  forall w r w',
    c w = Some (r, w') ->
    files w' = files w /\ forall h, ~ hs h -> store w' h = store w h.

(** [world_graceful] once the SIGTERM has been sent to the process. *)
Definition world_graceful_signalled : World :=
  upd world_graceful 0 (deliver SIGTERM (Some 1) 15%Z 0 process_graceful).

(** A capture that ends, with the status 15, exactly ten seconds after the
    SIGTERM: after the last poll, before the pipe is drained. *)
Definition process_late : Popen := mk_process (Some (10, 15%Z)) (Some 0) "late".

Definition world_late : World := mk_world (fun _ => process_late).

Definition world_late_signalled : World :=
  upd world_late 0 (deliver SIGTERM (Some 10) 15%Z 0 process_late).

(** [world_graceful] two seconds on, the process gone and its pipe at end of
    file. *)
Definition world_graceful_gone : World := later 2 world_graceful_signalled.

(** The world [stop] leaves when it is run for device [A] alone in
    [world_B_fails], and the world the first pass of its loop leaves when it
    is run for both devices with [self.process] unset. *)
Definition world_after_stop_A : World :=
  match stop 1 (instrument_one (Some 0)) world_B_fails with
  | Some (_, w') => w'
  | None => world_B_fails
  end.

Definition world_after_first_pass : World :=
  match stop_body 1 (instrument_two None) 0 "/tmp/A.csv" world_B_fails with
  | Some (_, w') => w'
  | None => world_B_fails
  end.

(** The path [mkstemp] returns for the call number [n] of [reset], made for
    [device]. *)
Definition raw_path (stems : nat -> string) (n : nat) (device : string) : string :=
  (stems n ++ ("_" ++ device ++ ".csv"))%string.

(** The settings [__init__] has by default, with a path for the binary. *)
Definition settings_default : Settings :=
  {| iio_capture := "/usr/bin/iio-capture";
     host := "baylibre-acme.local";
     buffer_size := 256 |}.

Definition stems_tmp (n : nat) : string :=
  match n with
  | O => "/tmp/tmpk3Jq0a"
  | _ => "/tmp/tmpZx81Lp"
  end.

(** An instrument right after [reset] for the one device [iio:device0],
    with a channel active on it. *)
Definition bookkeeping_fresh : Bookkeeping :=
  reset settings_default stems_tmp ["iio:device0"] ∅.

Definition instrument_fresh : AcmeCapeInstrument :=
  mk_instrument ["iio:device0"] (raw_files bookkeeping_fresh)
    [mk_channel "bus_0" "iio:device0" "vbus mV"] [] None.

(** Devices [A] and [B] with [self.process] set to the handle of [A]; the
    artifact of [B] is not on disk. *)
Definition instrument_B_unwritten : AcmeCapeInstrument :=
  mk_instrument ["A"; "B"] ["/tmp/A.csv"; "/tmp/unwritten.csv"] [] [0; 1]
    (Some 0).

(** ** Properties of the stream reader *)

(** What [__init__] comes to: only the rows after the first decide whether
    it raises. *)
Lemma DeviceReader_init_unfold fs raw_data_file cols f :
  fs !! raw_data_file = Some f ->
  DeviceReader_init fs raw_data_file cols =
    match next_nonblank (tl (csv_rows f)) with
    | None => Raise StopIteration
    | Some (row, rest) =>
        Ok {| _reader := {| dr_rows := rest;
                            dr_fieldnames := Some (hd [] (csv_rows f)) |};
              _current_row := row_dict (hd [] (csv_rows f)) row;
              columns := cols; finished := false |}
    end.
Proof.
  intros Hf. unfold DeviceReader_init. rewrite Hf.
  unfold DictReader_next, DictReader_fieldnames. simpl.
  destruct (csv_rows f) as [|h rows]; simpl; [reflexivity|].
  destruct (next_nonblank rows) as [[row rest]|]; reflexivity.
Qed.

Lemma DictReader_next_known d fn :
  dr_fieldnames d = Some fn ->
  DictReader_next d =
    match next_nonblank (dr_rows d) with
    | None => ({| dr_rows := []; dr_fieldnames := Some fn |}, Raise StopIteration)
    | Some (row, rest) =>
        ({| dr_rows := rest; dr_fieldnames := Some fn |}, Ok (row_dict fn row))
    end.
Proof.
  intros Hfn. unfold DictReader_next, DictReader_fieldnames. rewrite Hfn.
  destruct (next_nonblank (dr_rows d)) as [[row rest]|]; rewrite ?Hfn; reflexivity.
Qed.

Lemma pop_row_known r fn :
  dr_fieldnames (_reader r) = Some fn ->
  pop_row r =
    match next_nonblank (dr_rows (_reader r)) with
    | None =>
        Ok {| _reader := {| dr_rows := []; dr_fieldnames := Some fn |};
              _current_row := _current_row r;
              columns := columns r; finished := true |}
    | Some (row, rest) =>
        Ok {| _reader := {| dr_rows := rest; dr_fieldnames := Some fn |};
              _current_row := row_dict fn row;
              columns := columns r; finished := finished r |}
    end.
Proof.
  intros Hfn. unfold pop_row. rewrite (DictReader_next_known _ fn Hfn).
  destruct (next_nonblank (dr_rows (_reader r))) as [[row rest]|]; reflexivity.
Qed.

Lemma reachable_inv r : reachable r -> reader_inv r.
Proof.
  induction 1 as [fs raw cols r Hinit | r r' _ [[fn Hfn] Hfin] Hpop].
  - destruct (fs !! raw) as [f|] eqn:Hf.
    + rewrite (DeviceReader_init_unfold _ _ _ _ Hf) in Hinit.
      destruct (next_nonblank (tl (csv_rows f))) as [[row rest]|];
        [|discriminate].
      injection Hinit as <-. split; simpl; [eauto | discriminate].
    + unfold DeviceReader_init in Hinit. rewrite Hf in Hinit. discriminate.
  - rewrite (pop_row_known _ _ Hfn) in Hpop.
    destruct (next_nonblank (dr_rows (_reader r))) as [[row rest]|] eqn:Hnext;
      injection Hpop as <-; split; simpl; eauto.
    intros Hf. rewrite (Hfin Hf) in Hnext. discriminate.
Qed.

(** C9.  Calling [pop_row] on a reader that is already finished raises
    nothing and gives the reader back as it was: the current row is the
    same and [finished] is still true. *)
Theorem pop_row_finished_idempotent r :
  reachable r -> finished r = true -> pop_row r = Ok r.
Proof.
  intros Hr Hfin. destruct (reachable_inv r Hr) as [[fn Hfn] Hrows].
  rewrite (pop_row_known _ _ Hfn), (Hrows Hfin). simpl.
  destruct r as [[rows fns] cur cols fin]; simpl in *.
  rewrite (Hrows Hfin), Hfn, Hfin. reflexivity.
Qed.

Lemma pop_row_finished_idempotent_witness :
  reachable reader_X_exhausted /\
  finished reader_X_exhausted = true /\
  pop_row reader_X_exhausted = Ok reader_X_exhausted.
Proof.
  assert (H : reachable reader_X_exhausted).
  { eapply reach_pop;
      [eapply reach_pop;
        [eapply (reach_init fs_X "/tmp/X.csv" ["vbus mV"]); reflexivity
        |reflexivity]
      |reflexivity]. }
  split; [exact H|]. split; [reflexivity|].
  apply (pop_row_finished_idempotent reader_X_exhausted H). reflexivity.
Defined.

(** *** Opening a reader *)

Lemma fold_insert_other {A} (f : A -> string) (g : A -> PyVal)
    (l : list A) (m : gmap string PyVal) (c : string) :
  (forall x, x ∈ l -> f x <> c) ->
  fold_left (fun m x => <[f x := g x]> m) l m !! c = m !! c.
Proof.
  revert m. induction l as [|x l IH]; intros m Hl; simpl; [reflexivity|].
  rewrite IH.
  - apply lookup_insert_ne. apply Hl. left.
  - intros y Hy. apply Hl. right. exact Hy.
Qed.

(** A row's dict has no key outside the header. *)
Lemma row_dict_lookup_outside fieldnames row c :
  c ∉ fieldnames -> row_dict fieldnames row !! c = None.
Proof.
  intros Hc. unfold row_dict.
  rewrite (fold_insert_other (fun k => k) (fun _ => PyNone)).
  - rewrite (fold_insert_other fst (fun kv => PyStr (snd kv))).
    + apply lookup_empty.
    + intros [k v] Hkv <-. apply Hc. simpl.
      apply list_elem_of_In. apply list_elem_of_In in Hkv.
      eapply in_combine_l. exact Hkv.
  - intros k Hk <-. apply Hc. eapply subseteq_drop. exact Hk.
Qed.

Lemma list_comp_dict_missing (d : gmap string PyVal) (l : list string) c :
  c ∈ l -> d !! c = None -> list_comp (dict_getitem d) l = Raise KeyError.
Proof.
  intros Hin Hc. induction l as [|x l IH]; [inversion Hin|].
  simpl. unfold dict_getitem at 1.
  destruct (d !! x) as [v|] eqn:Hx; simpl; [|reflexivity].
  apply elem_of_cons in Hin as [->|Hin]; [congruence|].
  rewrite (IH Hin). reflexivity.
Qed.




(** ** Properties of [get_data] *)

Lemma list_comp_dict_exc (d : gmap string PyVal) (l : list string) e :
  list_comp (dict_getitem d) l = Raise e -> e = KeyError.
Proof.
  induction l as [|x l IH]; simpl; [discriminate|].
  unfold dict_getitem at 1.
  destruct (d !! x); simpl; [|congruence].
  destruct (list_comp (dict_getitem d) l); simpl; [discriminate|].
  intros [= <-]. apply IH. reflexivity.
Qed.

(** The row of a merge step cannot be built once there is a channel: the
    reader is missing, or a column is, or the list that [current_row]
    returns is subscripted by a column name. *)
Lemma build_row_raises readers channel chs row :
  exists e, build_row readers (channel :: chs) row = Raise e /\
            (e = KeyError \/ e = TypeError).
Proof.
  simpl. destruct (dict_getitem readers (iio_device channel)) as [reader|e] eqn:Hr.
  - simpl. destruct (current_row reader) as [cr|e] eqn:Hcr; simpl.
    + eauto.
    + exists e. split; [reflexivity|]. left.
      apply (list_comp_dict_exc _ _ _ Hcr).
  - unfold dict_getitem in Hr. destruct (readers !! _); [discriminate|].
    injection Hr as <-. simpl. eauto.
Qed.

Lemma active_devices_nonempty (chs : list Channel) :
  chs <> [] ->
  elements (list_to_set (map iio_device chs) : gset string) <> [].
Proof.
  destruct chs as [|c chs]; [congruence|]. intros _ Hel.
  apply elements_empty_inv in Hel.
  assert (Hin : iio_device c ∈ (list_to_set (map iio_device (c :: chs)) : gset string)).
  { apply elem_of_list_to_set. simpl. left. }
  rewrite Hel in Hin. exact (not_elem_of_empty _ Hin).
Qed.

(** With a channel active, the first pass through the merge loop raises
    before it writes anything. *)
Lemma merge_loop_raises fuel chs readers (active_devices : gset string) written :
  chs <> [] -> elements active_devices <> [] ->
  exists e, merge_loop (S fuel) chs readers active_devices written =
              (written, Some (Raise e)) /\
            (e = KeyError \/ e = TypeError).
Proof.
  intros Hchs Hact. simpl.
  destruct (elements active_devices) as [|d ds]; [congruence|].
  destruct chs as [|c chs]; [congruence|].
  destruct (build_row_raises readers c chs []) as (e & -> & He).
  eauto.
Qed.

(** C2.  Whenever a channel is active, [get_data] ends in an exception,
    whatever the fuel: either a reader could not be opened and no output
    was written, or the merge loop raised in its first pass with the header
    as the only row written.  So no merge of non-empty artifacts runs to an
    empty active set, and for the devices A and B no data row is written. *)
Theorem get_data_never_completes fuel fs self outfile :
  active_channels self <> [] ->
  exists e, ended (get_data (S fuel) fs self outfile) = Some (Raise e) /\
            (outfile_rows (get_data (S fuel) fs self outfile) = None \/
             outfile_rows (get_data (S fuel) fs self outfile) =
               Some [header_of self]).
Proof.
  intros Hchs. unfold get_data.
  destruct (open_readers _ _ _ _ _) as [readers|e]; [|simpl; eauto].
  destruct (merge_loop_raises fuel (active_channels self) readers
              (list_to_set (map iio_device (active_channels self)))
              [map (fun c => PyStr (label c)) (active_channels self)] Hchs
              (active_devices_nonempty _ Hchs)) as (e & -> & _).
  simpl. eauto.
Qed.

Lemma get_data_never_completes_witness :
  active_channels instrument_AB <> [] /\
  exists e, ended (get_data 8 fs_AB instrument_AB "out.csv") = Some (Raise e) /\
            (outfile_rows (get_data 8 fs_AB instrument_AB "out.csv") = None \/
             outfile_rows (get_data 8 fs_AB instrument_AB "out.csv") =
               Some [header_of instrument_AB]).
Proof.
  split; [discriminate|].
  apply (get_data_never_completes 7 fs_AB instrument_AB "out.csv").
  discriminate.
Defined.

(** C1.  On the artifact of device [X] with the one channel [bus_X],
    [get_data] writes the header and then raises a [TypeError] while it
    builds the first row: no combined row is written and no reader is
    advanced. *)
Theorem get_data_X_raises fuel :
  get_data (S fuel) fs_X instrument_X "out.csv" =
    {| outfile_rows := Some [[PyStr "bus_X"]];
       ended := Some (Raise TypeError) |}.
Proof. vm_compute. reflexivity. Qed.

(** C6.  The list [current_row] returns does hold a column once for every
    channel that names it, but [get_data] subscripts that list with the
    column name: with two channels on the [power mW] column of one device
    the first row raises a [TypeError]. *)
Theorem get_data_repeated_column_raises fuel :
  (r <- DeviceReader_init fs_P "/tmp/P.csv" ["power mW"; "power mW"] ;;
   current_row r) = Ok [PyStr "7"; PyStr "7"] /\
  list_getitem [PyStr "7"; PyStr "7"] (SubStr "power mW") = Raise TypeError /\
  get_data (S fuel) fs_P instrument_P "out.csv" =
    {| outfile_rows := Some [[PyStr "device_P_power"; PyStr "device_P_again"]];
       ended := Some (Raise TypeError) |}.
Proof. repeat split; vm_compute; reflexivity. Qed.

(** C7.  With the zero-length artifact of device [E] and the sound one of
    device [X], a channel active on each: no reader is opened for [E], and
    the first row raises a [KeyError] when it looks that reader up. *)
Theorem get_data_degraded_raises fuel :
  (readers <- open_readers fs_degraded (active_channels instrument_degraded)
                (list_to_set (map iio_device (active_channels instrument_degraded)))
                (combine (iio_devices instrument_degraded)
                         (raw_data_files instrument_degraded)) ∅ ;;
   Ok (elements (dom readers))) = Ok ["X"] /\
  get_data (S fuel) fs_degraded instrument_degraded "out.csv" =
    {| outfile_rows := Some [[PyStr "bus_E"; PyStr "bus_X"]];
       ended := Some (Raise KeyError) |}.
Proof. split; vm_compute; reflexivity. Qed.

(** *** The header row *)

Lemma merge_loop_appends fuel chs readers (active_devices : gset string) written :
  exists more,
    fst (merge_loop fuel chs readers active_devices written) = written ++ more.
Proof.
  revert active_devices written.
  induction fuel as [|fuel IH]; intros active_devices written; simpl.
  - exists []. symmetry. apply app_nil_r.
  - destruct (elements active_devices) as [|d ds].
    { exists []. symmetry. apply app_nil_r. }
    destruct (build_row readers chs []) as [row|e].
    2:{ exists []. symmetry. apply app_nil_r. }
    match goal with
    | |- context [match ?step with Ok _ => _ | Raise _ => _ end] =>
        destruct step as [active'|e]
    end.
    + destruct (IH active' (written ++ [row])) as [more ->].
      exists (row :: more). rewrite <- app_assoc. reflexivity.
    + exists [row]. reflexivity.
Qed.

Lemma open_readers_total fs chs (active_devices : gset string) files readers :
  (forall device raw_data_file,
      (device, raw_data_file) ∈ files -> device ∈ active_devices ->
      exists f, fs !! raw_data_file = Some f /\
                (st_size f = 0%N \/ next_nonblank (tl (csv_rows f)) <> None)) ->
  exists readers', open_readers fs chs active_devices files readers = Ok readers'.
Proof.
  revert readers. induction files as [|[device raw] files IH]; intros readers Hall.
  - simpl. eauto.
  - assert (Hrest : forall device raw_data_file,
               (device, raw_data_file) ∈ files -> device ∈ active_devices ->
               exists f, fs !! raw_data_file = Some f /\
                 (st_size f = 0%N \/ next_nonblank (tl (csv_rows f)) <> None)).
    { intros d r Hin. apply Hall. right. exact Hin. }
    simpl. destruct (decide (device ∈ active_devices)) as [Hact|_]; [|auto].
    destruct (Hall device raw (list_elem_of_here _ _) Hact) as (f & Hf & Hsz).
    rewrite Hf. destruct (st_size f =? 0)%N eqn:Hz; [auto|].
    destruct Hsz as [Hsz|Hrow]; [apply N.eqb_neq in Hz; contradiction|].
    rewrite (DeviceReader_init_unfold _ _ _ _ Hf).
    destruct (next_nonblank (tl (csv_rows f))) as [[row rest]|];
      [|contradiction]. simpl. auto.
Qed.

(** Whatever the artifacts, an output that was written starts with the
    labels of all active channels. *)
Lemma written_output_starts_with_header fuel fs self outfile rows :
  outfile_rows (get_data fuel fs self outfile) = Some rows ->
  exists rest, rows = header_of self :: rest.
Proof.
  unfold get_data, header_of.
  destruct (open_readers _ _ _ _ _) as [readers|e]; [|discriminate].
  destruct (merge_loop_appends fuel (active_channels self) readers
              (list_to_set (map iio_device (active_channels self)))
              [map (fun c => PyStr (label c)) (active_channels self)])
    as [more Hmore].
  destruct (merge_loop _ _ _ _ _) as [written [[m|e]|]];
    simpl in *; subst written; intros [= <-]; eauto.
Qed.

(** C10.  When every artifact of an active device can be read or is
    zero-length, [get_data] writes an output whose first row is the labels
    of all active channels in their order, the channels of the devices with
    a zero-length artifact among them. *)
Theorem header_lists_every_active_channel fuel fs self outfile :
  artifacts_readable fs self ->
  exists rest,
    outfile_rows (get_data fuel fs self outfile) =
      Some (map (fun c => PyStr (label c)) (active_channels self) :: rest).
Proof.
  intros Hfiles. unfold get_data.
  destruct (open_readers_total fs (active_channels self)
              (list_to_set (map iio_device (active_channels self)))
              (combine (iio_devices self) (raw_data_files self)) ∅)
    as [readers ->].
  { intros device raw Hin Hact. apply (Hfiles device raw Hin).
    apply elem_of_list_to_set in Hact. exact Hact. }
  destruct (merge_loop_appends fuel (active_channels self) readers
              (list_to_set (map iio_device (active_channels self)))
              [map (fun c => PyStr (label c)) (active_channels self)])
    as [more Hmore].
  destruct (merge_loop _ _ _ _ _) as [written [[m|e]|]];
    simpl in *; subst written; eauto.
Qed.

Lemma artifacts_readable_degraded :
  artifacts_readable fs_degraded instrument_degraded.
Proof.
  intros device raw Hin _. simpl in Hin.
  apply elem_of_cons in Hin as [[= -> ->]|Hin].
  { exists artifact_empty. split; [reflexivity | left; reflexivity]. }
  apply elem_of_cons in Hin as [[= -> ->]|Hin].
  { exists artifact_X. split; [reflexivity | right; discriminate]. }
  inversion Hin.
Defined.

Lemma header_lists_every_active_channel_witness :
  artifacts_readable fs_degraded instrument_degraded /\
  exists rest,
    outfile_rows (get_data 3 fs_degraded instrument_degraded "out.csv") =
      Some (map (fun c => PyStr (label c)) (active_channels instrument_degraded)
              :: rest).
Proof.
  split; [exact artifacts_readable_degraded|].
  apply (header_lists_every_active_channel 3 fs_degraded instrument_degraded
           "out.csv" artifacts_readable_degraded).
Defined.

(** *** The timestamp and the choice of the device to advance *)

Lemma ascii_compare_lt_trans a b c :
  Ascii.compare a b = Lt -> Ascii.compare b c = Lt -> Ascii.compare a c = Lt.
Proof.
  unfold Ascii.compare. rewrite !N.compare_lt_iff. apply N.lt_trans.
Qed.

Lemma string_compare_lt_trans s t u :
  String.compare s t = Lt -> String.compare t u = Lt -> String.compare s u = Lt.
Proof.
  revert t u. induction s as [|a s IH]; intros [|b t] [|c u]; simpl;
    try discriminate; try reflexivity.
  destruct (Ascii.compare a b) eqn:Hab; try discriminate.
  - apply Ascii.compare_eq_iff in Hab as ->.
    destruct (Ascii.compare b c); try discriminate; [apply IH | reflexivity].
  - intros _. destruct (Ascii.compare b c) eqn:Hbc; try discriminate.
    + apply Ascii.compare_eq_iff in Hbc as <-. rewrite Hab. reflexivity.
    + rewrite (ascii_compare_lt_trans _ _ _ Hab Hbc). reflexivity.
Qed.

Lemma string_compare_refl s : String.compare s s = Eq.
Proof.
  induction s as [|a s IH]; simpl; [reflexivity|].
  unfold Ascii.compare. rewrite N.compare_refl. exact IH.
Qed.

Lemma py_lt_irrefl k : py_lt k k = false.
Proof.
  destruct k as [|s]; simpl; [reflexivity|].
  unfold String.ltb. rewrite string_compare_refl. reflexivity.
Qed.

Lemma py_lt_trans a b c :
  py_lt a b = true -> py_lt b c = true -> py_lt a c = true.
Proof.
  destruct a as [|s], b as [|t], c as [|u]; simpl; try discriminate; auto.
  unfold String.ltb.
  destruct (String.compare s t) eqn:Hst; try discriminate.
  destruct (String.compare t u) eqn:Htu; try discriminate.
  rewrite (string_compare_lt_trans _ _ _ Hst Htu). reflexivity.
Qed.

Lemma min_loop_spec {A} (key : A -> result PyVal) (l seen : list A)
    (best : A) (kbest : PyVal) (d : A) :
  key best = Ok kbest -> best ∈ seen ->
  (forall y, y ∈ seen -> not_below key kbest y) ->
  min_loop key l best kbest = Ok d ->
  d ∈ seen ++ l /\
  exists kd, key d = Ok kd /\ forall y, y ∈ seen ++ l -> not_below key kd y.
Proof.
  revert seen best kbest.
  induction l as [|x l IH]; intros seen best kbest Hbest Hin Hseen; simpl.
  - intros [= <-]. rewrite app_nil_r. eauto.
  - destruct (key x) as [kx|e] eqn:Hx; simpl; [|discriminate].
    replace (seen ++ x :: l) with ((seen ++ [x]) ++ l)
      by (rewrite <- app_assoc; reflexivity).
    destruct (py_lt kx kbest) eqn:Hlt; apply IH; auto.
    + apply elem_of_app. right. left.
    + intros y [Hy|Hy]%elem_of_app.
      * destruct (Hseen y Hy) as (ky & Hky & Hnot). exists ky. split; [exact Hky|].
        destruct (py_lt ky kx) eqn:Hyx; [|reflexivity].
        rewrite (py_lt_trans _ _ _ Hyx Hlt) in Hnot. discriminate.
      * apply list_elem_of_singleton in Hy as ->. exists kx.
        split; [exact Hx | apply py_lt_irrefl].
    + apply elem_of_app. left. exact Hin.
    + intros y [Hy|Hy]%elem_of_app; [auto|].
      apply list_elem_of_singleton in Hy as ->. exists kx. auto.
Qed.

Lemma py_min_spec {A} (key : A -> result PyVal) (l : list A) (d : A) :
  py_min key l = Ok d ->
  d ∈ l /\ exists kd, key d = Ok kd /\ forall y, y ∈ l -> not_below key kd y.
Proof.
  destruct l as [|x l]; simpl; [discriminate|].
  destruct (key x) as [kx|e] eqn:Hx; simpl; [|discriminate].
  intros Hmin.
  apply (min_loop_spec key l [x] x kx d Hx); [left | | exact Hmin].
  intros y Hy. apply list_elem_of_singleton in Hy as ->.
  exists kx. split; [exact Hx | apply py_lt_irrefl].
Qed.

(** The selection of the device to advance, on its own.  With device [F]
    at timestamp 10 and device [S] at
    timestamp 5, [timestamp] returns the strings ["10"] and ["5"], and the
    [min] of the merge loop picks [F], whose timestamp is the larger
    number. *)
Lemma min_picks_F_at_10_over_S_at_5 :
  (r <- dict_getitem readers_FS "F" ;; timestamp r) = Ok (PyStr "10") /\
  (r <- dict_getitem readers_FS "S" ;; timestamp r) = Ok (PyStr "5") /\
  decimal_value "10" = Some 10%N /\
  decimal_value "5" = Some 5%N /\
  py_min (fun d => r <- dict_getitem readers_FS d ;; timestamp r)
         (elements active_FS) = Ok "F".
Proof. repeat split; vm_compute; reflexivity. Qed.

(** [timestamp] returns what the current row holds under
    [timestamp ms], as the reader read it (a string, or [None]), and the
    [min] of the merge loop picks an active device below whose timestamp no
    active device's timestamp lies in the order of these values: [None]
    first, then strings byte by byte. *)
Theorem min_picks_least_timestamp_string readers (active_devices : gset string) d :
  py_min (fun d => r <- dict_getitem readers d ;; timestamp r)
         (elements active_devices) = Ok d ->
  d ∈ active_devices /\
  exists r k,
    readers !! d = Some r /\ _current_row r !! "timestamp ms" = Some k /\
    timestamp r = Ok k /\
    forall d', d' ∈ active_devices ->
      exists r' k', readers !! d' = Some r' /\ timestamp r' = Ok k' /\
                    py_lt k' k = false.
Proof.
  intros Hmin. apply py_min_spec in Hmin as (Hin & k & Hk & Hall).
  assert (Hkey : forall x kx,
             (r <- dict_getitem readers x ;; timestamp r) = Ok kx ->
             exists r, readers !! x = Some r /\ timestamp r = Ok kx).
  { intros x kx. unfold dict_getitem at 1.
    destruct (readers !! x) as [r|]; simpl; [eauto | discriminate]. }
  split; [apply elem_of_elements; exact Hin|].
  destruct (Hkey d k Hk) as (r & Hr & Hts).
  exists r, k. repeat split; try assumption.
  - unfold timestamp, dict_getitem in Hts.
    destruct (_current_row r !! "timestamp ms"); congruence.
  - intros d' Hd'. apply elem_of_elements in Hd'.
    destruct (Hall d' Hd') as (k' & Hk' & Hnot).
    destruct (Hkey d' k' Hk') as (r' & Hr' & Hts'). eauto.
Qed.

Lemma min_picks_least_timestamp_string_witness :
  py_min (fun d => r <- dict_getitem readers_FS d ;; timestamp r)
         (elements active_FS) = Ok "F" /\
  "F" ∈ active_FS /\
  exists r k,
    readers_FS !! "F" = Some r /\ _current_row r !! "timestamp ms" = Some k /\
    timestamp r = Ok k /\
    forall d', d' ∈ active_FS ->
      exists r' k', readers_FS !! d' = Some r' /\ timestamp r' = Ok k' /\
                    py_lt k' k = false.
Proof.
  split; [vm_compute; reflexivity|].
  apply (min_picks_least_timestamp_string readers_FS active_FS "F").
  vm_compute. reflexivity.
Defined.

(** ** Properties of [stop] *)

Lemma bind_ok {A B} (c : Py A) (k : A -> Py B) w a w' :
  c w = Some (Ok a, w') -> bind c k w = k a w'.
Proof. intros H. unfold bind. rewrite H. reflexivity. Qed.

Lemma bind_raise {A B} (c : Py A) (k : A -> Py B) w e w' :
  c w = Some (Raise e, w') -> bind c k w = Some (Raise e, w').
Proof. intros H. unfold bind. rewrite H. reflexivity. Qed.

Lemma ended_by_mono t t' p :
  t <= t' -> ended_by t' p = false -> ended_by t p = false.
Proof.
  unfold ended_by. destruct (exit_at p) as [[te s]|]; [|reflexivity].
  intros Hle H. apply Nat.leb_gt in H. apply Nat.leb_gt. lia.
Qed.

Lemma Popen_poll_running h w :
  returncode (store w h) = None -> ended_by (now w) (store w h) = false ->
  Popen_poll h w = Some (Ok None, w).
Proof.
  unfold Popen_poll, ended_by. intros -> H.
  destruct (exit_at (store w h)) as [[te s]|]; [|reflexivity].
  rewrite H. reflexivity.
Qed.

(** The polling loop always comes back, and never with an exception. *)
Lemma poll_loop_returns n h w :
  exists broke w', poll_loop n h w = Some (Ok broke, w').
Proof.
  revert w. induction n as [|n IH]; intros w; simpl; [unfold ret; eauto|].
  unfold bind at 1. unfold Popen_poll.
  destruct (returncode (store w h)) as [rc|]; [unfold ret; eauto|].
  destruct (exit_at (store w h)) as [[te s]|].
  - destruct (te <=? now w)%nat; [unfold ret; eauto|].
    unfold bind, sleep. apply IH.
  - unfold bind, sleep. apply IH.
Qed.

(** Ten polls, a second apart, of a process that is still running ten
    seconds on: the loop runs to its end and the [else] branch is next. *)
Lemma poll_loop_running n h w :
  returncode (store w h) = None ->
  ended_by (now w + n) (store w h) = false ->
  poll_loop n h w = Some (Ok false, later n w).
Proof.
  revert w. induction n as [|n IH]; intros w Hrc Hrun; simpl.
  - unfold ret, later. destruct w; simpl. rewrite Nat.add_0_r. reflexivity.
  - rewrite (bind_ok _ _ _ None w).
    2:{ apply Popen_poll_running; [exact Hrc|].
        apply (ended_by_mono _ (now w + S n)); [lia | exact Hrun]. }
    rewrite (bind_ok _ _ _ tt (later 1 w)) by reflexivity.
    rewrite IH; simpl.
    + unfold later. simpl. do 3 f_equal. lia.
    + exact Hrc.
    + replace (now w + 1 + n) with (now w + S n) by lia. exact Hrun.
Qed.

Lemma Popen_terminate_live h w :
  returncode (store w h) = None ->
  exists w', Popen_terminate h w = Some (Ok tt, w').
Proof.
  intros Hrc. unfold Popen_terminate, send_signal. rewrite Hrc. eauto.
Qed.

Lemma stop_body_needs_process_attribute fuel self p raw w :
  process self = None ->
  returncode (store w p) = None ->
  exists w', stop_body fuel self p raw w = Some (Raise AttributeError, w').
Proof.
  intros Hattr Hrc.
  destruct (Popen_terminate_live p w Hrc) as [w1 Hterm].
  destruct (poll_loop_returns 10 p w1) as (broke & w2 & Hpoll).
  unfold stop_body. rewrite (bind_ok _ _ _ _ _ Hterm).
  cbv zeta. rewrite (bind_ok _ _ _ _ _ Hpoll).
  unfold self_process. rewrite Hattr.
  destruct broke.
  - rewrite (bind_ok _ _ _ "" w2) by reflexivity.
    exists w2. reflexivity.
  - exists w2. reflexivity.
Qed.

(** C3.  [stop] reads the exit status and the output through the attribute
    [self.process], not through the loop's own [process]: with the
    attribute unset, as the class leaves it, [stop] on at least one device
    whose process has not been reaped raises an [AttributeError], whatever
    that process does. *)
Theorem stop_needs_process_attribute fuel self w p ps raw raws :
  process self = None ->
  processes self = p :: ps ->
  raw_data_files self = raw :: raws ->
  returncode (store w p) = None ->
  outcome (stop fuel self w) = Some (Raise AttributeError).
Proof.
  intros Hattr Hps Hraws Hrc. unfold stop. rewrite Hps, Hraws. simpl.
  destruct (stop_body_needs_process_attribute fuel self p raw w Hattr Hrc)
    as [w' Hbody].
  rewrite (bind_raise _ _ _ _ _ Hbody). reflexivity.
Qed.

Lemma stop_needs_process_attribute_witness :
  process (instrument_one None) = None /\
  processes (instrument_one None) = [0] /\
  raw_data_files (instrument_one None) = ["/tmp/A.csv"] /\
  returncode (store world_graceful 0) = None /\
  outcome (stop 1 (instrument_one None) world_graceful) =
    Some (Raise AttributeError).
Proof.
  repeat (split; [reflexivity|]).
  apply (stop_needs_process_attribute 1 (instrument_one None) world_graceful
           0 [] "/tmp/A.csv" []); reflexivity.
Defined.

(** With the attribute set to the handle of device [A], whose capture ends
    with the status 15, [stop] returns although the capture of device [B]
    ended with the status 1: the status of [B] is never read. *)
Lemma stop_misses_failure_of_B fuel :
  outcome (stop fuel (instrument_two (Some 0)) world_B_fails) = Some (Ok tt).
Proof. vm_compute. reflexivity. Qed.

(** The same two captures, each read through its own handle, as the body
    of the loop does for a single device: [A] passes, [B] is an error. *)
Lemma stop_body_own_handle fuel :
  outcome (stop_body fuel (instrument_two (Some 0)) 0 "/tmp/A.csv" world_B_fails)
    = Some (Ok tt) /\
  outcome (stop_body fuel (instrument_two (Some 1)) 1 "/tmp/B.csv" world_B_fails)
    = Some (Raise (HostError (ExitedWithError (Some 1%Z) "cannot open device"))).
Proof. split; vm_compute; reflexivity. Qed.

(** *** Draining the pipe *)

Lemma string_app_nil_r (s : string) : (s ++ "")%string = s.
Proof.
  induction s as [|c s IH]; [reflexivity|].
  change (String c (s ++ "")%string = String c s). rewrite IH. reflexivity.
Qed.

Lemma string_app_assoc (s t u : string) :
  ((s ++ t) ++ u)%string = (s ++ (t ++ u))%string.
Proof.
  induction s as [|c s IH]; [reflexivity|].
  change (String c ((s ++ t) ++ u)%string = String c (s ++ (t ++ u))%string).
  rewrite IH. reflexivity.
Qed.

Lemma substring_all (s : string) : substring 0 (String.length s) s = s.
Proof. induction s as [|c s IH]; simpl; [reflexivity | rewrite IH; reflexivity]. Qed.

(** What [read(size)] returns and what it leaves make up the buffer. *)
Lemma substring_split (size : nat) (s : string) :
  (substring 0 size s ++ substring size (String.length s - size) s)%string = s.
Proof.
  revert size. induction s as [|c s IH]; intros [|size]; try reflexivity.
  - change (String c (substring 0 (String.length s) s) = String c s).
    rewrite substring_all. reflexivity.
  - change (String c (substring 0 size s ++
                      substring size (String.length s - size) s)%string
            = String c s).
    rewrite IH. reflexivity.
Qed.

Lemma substring_length_le (n m : nat) (s : string) :
  String.length (substring n m s) <= m.
Proof.
  revert n m. induction s as [|c s IH]; intros [|n] [|m]; simpl; try lia.
  - specialize (IH 0 m). lia.
  - apply IH.
  - apply IH.
Qed.

Lemma upd_same w h p : store (upd w h p) h = p.
Proof. unfold upd. simpl. rewrite Nat.eqb_refl. reflexivity. Qed.

(** With the writer still running and fuel beyond the length of what the
    pipe holds, the reading loop returns all of it and leaves the pipe
    empty. *)
Lemma read_loop_drains fuel h size output w :
  0 < size ->
  ended_by (now w) (store w h) = false ->
  String.length (stdout (store w h)) < fuel ->
  exists w',
    read_loop fuel h size output w =
      Some (Ok (output ++ stdout (store w h))%string, w') /\
    drained h w w'.
Proof.
  intros Hsize. revert output w.
  induction fuel as [|fuel IH]; intros output w Hrun Hlen; [lia|].
  simpl. unfold pipe_read_size.
  destruct (stdout (store w h)) as [|c s] eqn:Hbuf.
  - rewrite Hrun. exists w. rewrite string_app_nil_r.
    split; [reflexivity|]. split; [reflexivity|].
    unfold set_pipe. rewrite <- Hbuf. destruct (store w h); reflexivity.
  - rewrite <- Hbuf in *.
    set (p := store w h) in *.
    set (rest := substring size (String.length (stdout p) - size) (stdout p)).
    set (w1 := upd w h (set_pipe p rest (nonblock p))).
    assert (Hp1 : store w1 h = set_pipe p rest (nonblock p)) by apply upd_same.
    destruct (IH (output ++ substring 0 size (stdout p))%string w1)
      as (w' & Hloop & Hnow & Hstore).
    + rewrite Hp1. exact Hrun.
    + rewrite Hp1. simpl. subst rest.
      pose proof (substring_length_le size (String.length (stdout p) - size)
                    (stdout p)) as Hle.
      assert (0 < String.length (stdout p)) by (rewrite Hbuf; simpl; lia).
      lia.
    + exists w'. rewrite Hloop, Hp1. simpl. subst rest.
      rewrite string_app_assoc, substring_split.
      split; [reflexivity|]. split; [exact Hnow|].
      rewrite Hstore, Hp1. reflexivity.
Qed.

Lemma read_nonblock_drains fuel h w :
  ended_by (now w) (store w h) = false ->
  String.length (stdout (store w h)) < fuel ->
  exists w',
    _read_nonblock fuel h 1024 w = Some (Ok (stdout (store w h)), w') /\
    now w' = now w /\
    store w' h = set_pipe (store w h) "" true.
Proof.
  intros Hrun Hlen. unfold _read_nonblock.
  set (w0 := upd w h (set_pipe (store w h) (stdout (store w h)) true)).
  rewrite (bind_ok _ _ _ tt w0) by reflexivity.
  assert (Hp0 : store w0 h = set_pipe (store w h) (stdout (store w h)) true)
    by apply upd_same.
  destruct (read_loop_drains fuel h 1024 "" w0) as (w' & Hloop & Hnow & Hstore).
  - lia.
  - rewrite Hp0. exact Hrun.
  - rewrite Hp0. exact Hlen.
  - exists w'. rewrite Hloop, Hp0. simpl.
    split; [reflexivity|]. split; [exact Hnow|].
    rewrite Hstore, Hp0. reflexivity.
Qed.

Lemma Popen_terminate_inv h w w1 :
  Popen_terminate h w = Some (Ok tt, w1) ->
  returncode (store w1 h) = None /\ now w1 = now w.
Proof.
  unfold Popen_terminate, send_signal.
  destruct (returncode (store w h)) eqn:Hrc; [discriminate|].
  intros [= <-]. rewrite upd_same. simpl. auto.
Qed.

Lemma bind_assoc {A B C} (c : Py A) (k1 : A -> Py B) (k2 : B -> Py C) w :
  bind (bind c k1) k2 w = bind c (fun a => bind (k1 a) k2) w.
Proof.
  unfold bind. destruct (c w) as [[[a|e] w']|]; reflexivity.
Qed.

Lemma Popen_kill_live h w :
  returncode (store w h) = None ->
  exists w',
    Popen_kill h w = Some (Ok tt, w') /\
    now w' = now w /\
    store w' h =
      deliver SIGKILL (on_sigkill (store w h)) (- SIGKILL) (now w) (store w h).
Proof.
  intros Hrc. unfold Popen_kill, send_signal. rewrite Hrc.
  eexists. split; [reflexivity|]. split; [reflexivity | apply upd_same].
Qed.

Lemma Popen_poll_ended h w te s :
  returncode (store w h) = None ->
  exit_at (store w h) = Some (te, s) -> te <= now w ->
  exists w',
    Popen_poll h w = Some (Ok (Some s), w') /\
    now w' = now w /\
    returncode (store w' h) = Some s /\
    exit_at (store w' h) = Some (te, s) /\
    signalled (store w' h) = signalled (store w h) /\
    stdout (store w' h) = stdout (store w h) /\
    files w' = files w.
Proof.
  intros Hrc Hexit Hle. unfold Popen_poll. rewrite Hrc, Hexit.
  apply Nat.leb_le in Hle. rewrite Hle.
  eexists. split; [reflexivity|]. rewrite upd_same. simpl. auto 10.
Qed.

Lemma pipe_read_ended h w :
  ended_by (now w) (store w h) = true ->
  exists w',
    pipe_read h w = Some (Ok (stdout (store w h)), w') /\
    now w' = now w /\
    returncode (store w' h) = returncode (store w h) /\
    signalled (store w' h) = signalled (store w h) /\
    stdout (store w' h) = "".
Proof.
  intros Hend. unfold pipe_read. rewrite Hend.
  eexists. split; [reflexivity|]. rewrite upd_same. simpl. auto.
Qed.

Ltac step H := rewrite ?bind_assoc; rewrite (bind_ok _ _ _ _ _ H); cbv beta iota.
Lemma bind_ret {A B} (a : A) (k : A -> Py B) w : bind (ret a) k w = k a w.
Proof. reflexivity. Qed.

Ltac step_ret := rewrite ?bind_assoc; rewrite bind_ret; cbv beta iota.

Lemma get_returncode_spec h w :
  get_returncode h w = Some (Ok (returncode (store w h)), w).
Proof. reflexivity. Qed.

Lemma deliver_at_once sig status t q :
  ended_by t q = false ->
  exit_at (deliver sig (Some 0) status t q) = Some (t + 0, status).
Proof.
  unfold ended_by, deliver. simpl.
  destruct (exit_at q) as [[te s]|]; [|reflexivity].
  intros H. apply Nat.leb_gt in H.
  assert (Hlt : (t + 0 <? te)%nat = true) by (apply Nat.ltb_lt; lia).
  rewrite Hlt. reflexivity.
Qed.

Lemma deliver_not_at_once sig reaction status t q :
  ended_by t q = false -> reaction <> Some 0 ->
  ended_by t (deliver sig reaction status t q) = false.
Proof.
  unfold ended_by, deliver. simpl. intros Hrun Hre.
  destruct reaction as [[|d]|]; [congruence| |exact Hrun].
  destruct (exit_at q) as [[te s]|].
  - destruct (t + S d <? te)%nat; [|exact Hrun]. apply Nat.leb_gt. lia.
  - apply Nat.leb_gt. lia.
Qed.

(** Were [self.process] set: when the process is still running ten seconds
    after the SIGTERM, and [self.process] is that process's own handle, the
    body of [stop] makes its ten polls, drains the pipe without blocking,
    sends the SIGKILL whatever a later poll will show, and ends in a
    [HostError] carrying what it drained: 'Could not terminate' when the
    poll after the kill still shows the process running, and 'exited with
    an error' with the status -9 when that poll shows it gone. *)
Theorem stop_after_grace_window fuel self p raw w w1 :
  process self = Some p ->
  Popen_terminate p w = Some (Ok tt, w1) ->
  ended_by (now w1 + 10) (store w1 p) = false ->
  String.length (stdout (store w1 p)) < fuel ->
  exists w',
    stop_body fuel self p raw w =
      Some (Raise (HostError
              (match on_sigkill (store w1 p) with
               | Some 0 => ExitedWithError (Some (-9)%Z) (stdout (store w1 p))
               | _ => CouldNotTerminate (stdout (store w1 p))
               end)), w') /\
    now w' = now w1 + 10 /\
    SIGKILL ∈ signalled (store w' p) /\
    stdout (store w' p) = "".
Proof.
  intros Hattr Hterm Hrun Hlen.
  destruct (Popen_terminate_inv _ _ _ Hterm) as [Hrc1 _].
  pose proof (poll_loop_running 10 p w1 Hrc1 Hrun) as Hpoll.
  destruct (read_nonblock_drains fuel p (later 10 w1) Hrun Hlen)
    as (w3 & Hread & Hnow3 & Hst3).
  simpl in Hread, Hnow3, Hst3.
  destruct (Popen_kill_live p w3) as (w4 & Hkill & Hnow4 & Hst4).
  { rewrite Hst3. exact Hrc1. }
  rewrite Hst3, Hnow3 in Hst4. simpl on_sigkill in Hst4.
  pose proof (eq_refl : logger_error "iio-capture did not terminate gracefully" w4 = _) as Hlog.
  unfold logger_error at 2 in Hlog.
  set (w5 := {| now := now w4; store := store w4; files := files w4;
                errors_logged := errors_logged w4 ++ ["iio-capture did not terminate gracefully"] |}) in Hlog.
  unfold stop_body. step Hterm. cbv zeta. step Hpoll.
  unfold self_process. rewrite Hattr.
  step_ret. step Hread. step_ret. step Hkill. step Hlog.
  assert (Hrun3 : ended_by (now w1 + 10) (set_pipe (store w1 p) "" true) = false)
    by exact Hrun.
  assert (Hnow5 : now w5 = now w1 + 10) by (simpl; congruence).
  assert (Hst5 : store w5 p = store w4 p) by reflexivity.
  assert (Hrc5 : returncode (store w5 p) = None)
    by (rewrite Hst5, Hst4; exact Hrc1).
  assert (Hsig5 : SIGKILL ∈ signalled (store w5 p))
    by (rewrite Hst5, Hst4; left).
  assert (Hout5 : stdout (store w5 p) = "")
    by (rewrite Hst5, Hst4; reflexivity).
  destruct (decide (on_sigkill (store w1 p) = Some 0)) as [Hk|Hk].
  - rewrite Hk in *.
    destruct (Popen_poll_ended p w5 (now w1 + 10 + 0) (- SIGKILL)%Z)
      as (w6 & Hpoll6 & Hnow6 & Hrc6 & Hexit6 & Hsig6 & Hout6 & _).
    { exact Hrc5. }
    { rewrite Hst5, Hst4. apply deliver_at_once. exact Hrun3. }
    { lia. }
    step Hpoll6. step_ret. step_ret. step (get_returncode_spec p w6).
    rewrite Hrc6. rewrite bool_decide_eq_false_2 by discriminate.
    step_ret.
    destruct (pipe_read_ended p w6) as (w7 & Hread7 & Hnow7 & Hrc7 & Hsig7 & Hout7).
    { unfold ended_by. rewrite Hexit6. apply Nat.leb_le. lia. }
    step Hread7. step_ret. step (get_returncode_spec p w7).
    exists w7. rewrite Hrc7, Hrc6, Hout6, Hout5, Hsig7, Hsig6, Hout7.
    rewrite string_app_nil_r.
    split; [reflexivity|]. split; [lia|]. split; [exact Hsig5 | reflexivity].
  - rewrite bind_assoc. rewrite (bind_ok _ _ _ None w5).
    2:{ apply Popen_poll_running; [exact Hrc5|].
        rewrite Hnow5, Hst5, Hst4. apply deliver_not_at_once; assumption. }
    exists w5. split; [|repeat split; assumption].
    destruct (on_sigkill (store w1 p)) as [[|d]|]; [congruence| |]; reflexivity.
Qed.

Lemma stop_after_grace_window_witness :
  process (instrument_one (Some 0)) = Some 0 /\
  Popen_terminate 0 world_stuck = Some (Ok tt, world_stuck_signalled) /\
  ended_by (now world_stuck_signalled + 10) (store world_stuck_signalled 0)
    = false /\
  String.length (stdout (store world_stuck_signalled 0)) < 8 /\
  exists w',
    stop_body 8 (instrument_one (Some 0)) 0 "/tmp/A.csv" world_stuck =
      Some (Raise (HostError
              (match on_sigkill (store world_stuck_signalled 0) with
               | Some 0 =>
                   ExitedWithError (Some (-9)%Z)
                     (stdout (store world_stuck_signalled 0))
               | _ => CouldNotTerminate (stdout (store world_stuck_signalled 0))
               end)), w') /\
    now w' = now world_stuck_signalled + 10 /\
    SIGKILL ∈ signalled (store w' 0) /\
    stdout (store w' 0) = "".
Proof.
  split; [reflexivity|]. split; [reflexivity|]. split; [reflexivity|].
  split; [simpl; lia|].
  apply (stop_after_grace_window 8 (instrument_one (Some 0)) 0 "/tmp/A.csv"
           world_stuck world_stuck_signalled);
    [reflexivity | reflexivity | reflexivity | simpl; lia].
Defined.

(** A process that ignores the SIGTERM and ends at
    once on the SIGKILL.  With [self.process] unset, [stop] raises an
    [AttributeError] and the process has been sent the SIGTERM only; with
    [self.process] the process's own handle, [stop] fails with 'exited
    with an error' and the status -9, not with 'Could not terminate'. *)
Lemma stop_stuck_process_not_ungraceful :
  outcome (stop 8 (instrument_one None) world_stuck) =
    Some (Raise AttributeError) /\
  option_map (fun r => signalled (store (snd r) 0))
             (stop 8 (instrument_one None) world_stuck) = Some [SIGTERM] /\
  outcome (stop 8 (instrument_one (Some 0)) world_stuck) =
    Some (Raise (HostError (ExitedWithError (Some (-9)%Z) "partial"))).
Proof. repeat split; vm_compute; reflexivity. Qed.

(** A process that takes a second to end on the SIGKILL is the case in
    which [stop] does raise 'Could not terminate', with what it drained. *)
Lemma stop_slow_to_die_ungraceful :
  outcome (stop 8 (instrument_one (Some 0)) world_slow_to_die) =
    Some (Raise (HostError (CouldNotTerminate "partial"))).
Proof. vm_compute. reflexivity. Qed.

(** A pipe at end of file never raises the [IOError] that ends the reading
    loop: whatever the fuel, the loop does not return. *)
Lemma read_loop_at_eof fuel h size output w :
  stdout (store w h) = "" -> ended_by (now w) (store w h) = true ->
  read_loop fuel h size output w = None.
Proof.
  intros Hbuf Hend. revert output.
  induction fuel as [|fuel IH]; intros output; simpl; [reflexivity|].
  unfold pipe_read_size. rewrite Hbuf, Hend. apply IH.
Qed.

(** *** A process that ends within the grace window *)

Lemma Popen_terminate_keeps h w w1 :
  Popen_terminate h w = Some (Ok tt, w1) ->
  files w1 = files w /\ stdout (store w1 h) = stdout (store w h).
Proof.
  unfold Popen_terminate, send_signal.
  destruct (returncode (store w h)); [discriminate|].
  intros [= <-]. rewrite upd_same. simpl. auto.
Qed.

(** A process that is gone by the last of the [S n] polls makes the loop
    leave by [break], with its status in [returncode]. *)
Lemma poll_loop_breaks n h w te s :
  returncode (store w h) = None ->
  exit_at (store w h) = Some (te, s) -> te <= now w + n ->
  exists w',
    poll_loop (S n) h w = Some (Ok true, w') /\
    returncode (store w' h) = Some s /\
    ended_by (now w') (store w' h) = true /\
    stdout (store w' h) = stdout (store w h) /\
    files w' = files w.
Proof.
  revert w. induction n as [|n IH]; intros w Hrc Hexit Hle.
  - destruct (Popen_poll_ended h w te s Hrc Hexit) as
      (w' & Hpoll & Hnow & Hrc' & Hexit' & _ & Hout & Hfiles); [lia|].
    exists w'. simpl. rewrite (bind_ok _ _ _ _ _ Hpoll).
    split; [reflexivity|]. split; [exact Hrc'|].
    split; [unfold ended_by; rewrite Hexit'; apply Nat.leb_le; lia|].
    split; [exact Hout | exact Hfiles].
  - destruct (le_lt_dec te (now w)) as [Hgone|Hlater].
    + destruct (Popen_poll_ended h w te s Hrc Hexit Hgone) as
        (w' & Hpoll & Hnow & Hrc' & Hexit' & _ & Hout & Hfiles).
      exists w'. change (poll_loop (S (S n)) h w)
        with (bind (Popen_poll h)
                (fun r => match r with
                          | Some _ => ret true
                          | None => bind (sleep 1) (fun _ => poll_loop (S n) h)
                          end) w).
      rewrite (bind_ok _ _ _ _ _ Hpoll).
      split; [reflexivity|]. split; [exact Hrc'|].
      split; [unfold ended_by; rewrite Hexit'; apply Nat.leb_le; lia|].
      split; [exact Hout | exact Hfiles].
    + destruct (IH (later 1 w)) as (w' & Hloop & Hrest); [exact Hrc|exact Hexit|simpl; lia|].
      exists w'. split; [|exact Hrest].
      change (poll_loop (S (S n)) h w)
        with (bind (Popen_poll h)
                (fun r => match r with
                          | Some _ => ret true
                          | None => bind (sleep 1) (fun _ => poll_loop (S n) h)
                          end) w).
      rewrite (bind_ok _ _ _ None w).
      2:{ apply Popen_poll_running; [exact Hrc|].
          unfold ended_by. rewrite Hexit. apply Nat.leb_gt. lia. }
      rewrite (bind_ok _ _ _ tt (later 1 w)) by reflexivity.
      exact Hloop.
Qed.

(** Read through the process's own handle, the body of [stop] does for a
    process that ends within the ten polls what its messages say: it passes
    on the status 15 when the artifact is a file, and raises 'exited with
    an error' with the status and the output otherwise. *)
Lemma stop_body_exit_within_window fuel self p raw w w1 te s :
  process self = Some p ->
  Popen_terminate p w = Some (Ok tt, w1) ->
  exit_at (store w1 p) = Some (te, s) -> te <= now w1 + 9 ->
  outcome (stop_body fuel self p raw w) =
    Some (if bool_decide (s = 15%Z)
          then if bool_decide (is_Some (files w !! raw)) then Ok tt
               else Raise (HostError OutputCsvNotGenerated)
          else Raise (HostError (ExitedWithError (Some s) (stdout (store w p))))).
Proof.
  intros Hattr Hterm Hexit Hle.
  destruct (Popen_terminate_inv _ _ _ Hterm) as [Hrc1 _].
  destruct (Popen_terminate_keeps _ _ _ Hterm) as [Hfiles1 Hout1].
  destruct (poll_loop_breaks 9 p w1 te s Hrc1 Hexit Hle)
    as (w2 & Hpoll & Hrc2 & Hend2 & Hout2 & Hfiles2).
  unfold stop_body. step Hterm. cbv zeta. step Hpoll.
  unfold self_process. rewrite Hattr.
  step_ret. step_ret. step (get_returncode_spec p w2). rewrite Hrc2.
  destruct (decide (s = 15%Z)) as [->|Hs].
  - rewrite bool_decide_eq_true_2 by reflexivity.
    rewrite bool_decide_eq_true_2 by reflexivity.
    unfold isfile. rewrite (bind_ok _ _ _ _ w2 eq_refl).
    rewrite Hfiles2, Hfiles1.
    destruct (bool_decide (is_Some (files w !! raw))); reflexivity.
  - rewrite bool_decide_eq_false_2 by congruence.
    rewrite bool_decide_eq_false_2 by exact Hs.
    destruct (pipe_read_ended p w2 Hend2) as (w3 & Hread & _ & Hrc3 & _ & _).
    step_ret. step Hread. step_ret. step (get_returncode_spec p w3).
    rewrite Hrc3, Hrc2, Hout2, Hout1. reflexivity.
Qed.

(** ** More on the stream reader *)

Lemma fold_insert_is_Some {A} (f : A -> string) (g : A -> PyVal)
    (l : list A) (m : gmap string PyVal) (k : string) :
  is_Some (fold_left (fun m x => <[f x := g x]> m) l m !! k) <->
  is_Some (m !! k) \/ exists x, x ∈ l /\ f x = k.
Proof.
  revert m. induction l as [|x l IH]; intros m; simpl.
  - split; [auto|]. intros [H|(x & Hx & _)]; [exact H | inversion Hx].
  - rewrite IH. split.
    + intros [H|(y & Hy & Hk)].
      * destruct (decide (f x = k)) as [Heq|Hne].
        -- right. exists x. split; [left | exact Heq].
        -- rewrite lookup_insert_ne in H by exact Hne. auto.
      * right. exists y. split; [right; exact Hy | exact Hk].
    + intros [H|(y & Hy & Hk)].
      * left. destruct (decide (f x = k)) as [Heq|Hne].
        -- rewrite Heq, lookup_insert_eq. eauto.
        -- rewrite lookup_insert_ne by exact Hne. exact H.
      * apply elem_of_cons in Hy as [->|Hy].
        -- left. rewrite Hk, lookup_insert_eq. eauto.
        -- right. eauto.
Qed.

Lemma map_fst_combine (l k : list string) :
  map fst (combine l k) = take (List.length k) l.
Proof.
  revert k. induction l as [|x l IH]; intros [|y k]; simpl; try reflexivity.
  rewrite IH. reflexivity.
Qed.

(** The keys of a row's dict are the names of the header, whatever the
    length of the row. *)
Lemma row_dict_keys fieldnames row k :
  is_Some (row_dict fieldnames row !! k) <-> k ∈ fieldnames.
Proof.
  unfold row_dict.
  rewrite (fold_insert_is_Some (fun k => k) (fun _ => PyNone)).
  rewrite (fold_insert_is_Some fst (fun kv => PyStr (snd kv))).
  rewrite lookup_empty.
  assert (Hsplit : k ∈ fieldnames <->
                   k ∈ take (List.length row) fieldnames \/
                   k ∈ drop (List.length row) fieldnames).
  { rewrite <- elem_of_app, take_drop. reflexivity. }
  rewrite Hsplit, <- map_fst_combine. split.
  - intros [[[v Hv]|(x & Hx & Hk)]|(x & Hx & Hk)].
    + discriminate.
    + left. rewrite <- Hk. apply list_elem_of_In, in_map, list_elem_of_In, Hx.
    + right. rewrite <- Hk. exact Hx.
  - intros [Hin|Hin].
    + left. right. apply list_elem_of_In, in_map_iff in Hin as (x & Hk & Hx).
      exists x. split; [apply list_elem_of_In, Hx | exact Hk].
    + right. exists k. auto.
Qed.

Lemma list_comp_dict_ok (d : gmap string PyVal) (l : list string) :
  (forall c, c ∈ l -> is_Some (d !! c)) ->
  exists vals, list_comp (dict_getitem d) l = Ok vals.
Proof.
  induction l as [|x l IH]; intros Hall; simpl; [eauto|].
  destruct (Hall x) as [v Hv]; [left|].
  destruct IH as [vals Hvals]; [intros c Hc; apply Hall; right; exact Hc|].
  unfold dict_getitem at 1. rewrite Hv. simpl. rewrite Hvals. simpl. eauto.
Qed.

Lemma list_comp_length {A B} (f : A -> result B) (l : list A) vals :
  list_comp f l = Ok vals -> List.length vals = List.length l.
Proof.
  revert vals. induction l as [|x l IH]; intros vals; simpl.
  - intros [= <-]. reflexivity.
  - destruct (f x) as [y|e]; simpl; [|discriminate].
    destruct (list_comp f l) as [ys|e]; simpl; [|discriminate].
    intros [= <-]. simpl. rewrite (IH ys eq_refl). reflexivity.
Qed.

Lemma DeviceReader_init_row fs raw cols f r :
  fs !! raw = Some f -> DeviceReader_init fs raw cols = Ok r ->
  exists row rest,
    next_nonblank (tl (csv_rows f)) = Some (row, rest) /\
    _current_row r = row_dict (hd [] (csv_rows f)) row /\
    _reader r = {| dr_rows := rest; dr_fieldnames := Some (hd [] (csv_rows f)) |} /\
    columns r = cols /\ finished r = false.
Proof.
  intros Hf. rewrite (DeviceReader_init_unfold _ _ _ _ Hf).
  destruct (next_nonblank (tl (csv_rows f))) as [[row rest]|]; [|discriminate].
  intros [= <-]. exists row, rest. simpl. auto.
Qed.

(** X1.  On a reader that has been opened, [current_row] returns a list
    exactly when every requested column is a name of the artifact's header,
    and the list then has one value for each requested column, a column
    asked for twice counted twice. *)
Theorem current_row_ok_iff_columns_in_header fs raw_data_file cols f r :
  fs !! raw_data_file = Some f ->
  DeviceReader_init fs raw_data_file cols = Ok r ->
  ((exists vals, current_row r = Ok vals) <->
   (forall c, c ∈ cols -> c ∈ hd [] (csv_rows f))) /\
  (forall vals, current_row r = Ok vals ->
                List.length vals = List.length cols).
Proof.
  intros Hf Hinit.
  destruct (DeviceReader_init_row _ _ _ _ _ Hf Hinit)
    as (row & rest & _ & Hcur & _ & Hcols & _).
  unfold current_row. rewrite Hcur, Hcols. split; [split|].
  - intros [vals Hvals] c Hc.
    destruct (decide (c ∈ hd [] (csv_rows f))) as [Hin|Hout]; [exact Hin|].
    rewrite (list_comp_dict_missing _ _ c Hc) in Hvals; [discriminate|].
    apply row_dict_lookup_outside. exact Hout.
  - intros Hall. apply list_comp_dict_ok. intros c Hc.
    apply row_dict_keys. auto.
  - apply list_comp_length.
Qed.

Lemma current_row_ok_iff_columns_in_header_witness :
  fs_X !! "/tmp/X.csv" = Some artifact_X /\
  DeviceReader_init fs_X "/tmp/X.csv" ["vbus mV"; "vbus mV"] =
    Ok {| _reader := {| dr_rows := [["10"; "105"]];
                        dr_fieldnames := Some ["timestamp ms"; "vbus mV"] |};
          _current_row := row_dict ["timestamp ms"; "vbus mV"] ["0"; "100"];
          columns := ["vbus mV"; "vbus mV"]; finished := false |} /\
  ((exists vals,
       current_row
         {| _reader := {| dr_rows := [["10"; "105"]];
                          dr_fieldnames := Some ["timestamp ms"; "vbus mV"] |};
            _current_row := row_dict ["timestamp ms"; "vbus mV"] ["0"; "100"];
            columns := ["vbus mV"; "vbus mV"]; finished := false |} = Ok vals) <->
   (forall c, c ∈ ["vbus mV"; "vbus mV"] -> c ∈ hd [] (csv_rows artifact_X))) /\
  (forall vals,
      current_row
        {| _reader := {| dr_rows := [["10"; "105"]];
                         dr_fieldnames := Some ["timestamp ms"; "vbus mV"] |};
           _current_row := row_dict ["timestamp ms"; "vbus mV"] ["0"; "100"];
           columns := ["vbus mV"; "vbus mV"]; finished := false |} = Ok vals ->
      List.length vals = List.length ["vbus mV"; "vbus mV"]).
Proof.
  split; [reflexivity|]. split; [reflexivity|].
  apply (current_row_ok_iff_columns_in_header fs_X "/tmp/X.csv"
           ["vbus mV"; "vbus mV"] artifact_X); reflexivity.
Defined.

(** X2.  On a reader that has been opened, [timestamp] raises a [KeyError]
    exactly when the header of the artifact has no [timestamp ms] column,
    and returns a value otherwise. *)
Theorem timestamp_needs_timestamp_column fs raw_data_file cols f r :
  fs !! raw_data_file = Some f ->
  DeviceReader_init fs raw_data_file cols = Ok r ->
  (timestamp r = Raise KeyError <-> "timestamp ms" ∉ hd [] (csv_rows f)) /\
  ("timestamp ms" ∈ hd [] (csv_rows f) -> exists k, timestamp r = Ok k).
Proof.
  intros Hf Hinit.
  destruct (DeviceReader_init_row _ _ _ _ _ Hf Hinit)
    as (row & rest & _ & Hcur & _).
  unfold timestamp, dict_getitem. rewrite Hcur.
  pose proof (row_dict_keys (hd [] (csv_rows f)) row "timestamp ms") as Hkeys.
  destruct (row_dict (hd [] (csv_rows f)) row !! "timestamp ms") as [k|].
  - split; [split; [discriminate|]|eauto].
    intros Hout. exfalso. apply Hout, Hkeys. eauto.
  - split; [split; [|reflexivity]|].
    + intros _ Hin. apply Hkeys in Hin as [k Hk]. discriminate.
    + intros Hin. apply Hkeys in Hin as [k Hk]. discriminate.
Qed.

Lemma timestamp_needs_timestamp_column_witness :
  fs_P !! "/tmp/P.csv" = Some artifact_P /\
  DeviceReader_init fs_P "/tmp/P.csv" ["power mW"] =
    Ok {| _reader := {| dr_rows := [["10"; "8"]];
                        dr_fieldnames := Some ["timestamp ms"; "power mW"] |};
          _current_row := row_dict ["timestamp ms"; "power mW"] ["0"; "7"];
          columns := ["power mW"]; finished := false |} /\
  (timestamp
     {| _reader := {| dr_rows := [["10"; "8"]];
                      dr_fieldnames := Some ["timestamp ms"; "power mW"] |};
        _current_row := row_dict ["timestamp ms"; "power mW"] ["0"; "7"];
        columns := ["power mW"]; finished := false |} = Raise KeyError <->
   "timestamp ms" ∉ hd [] (csv_rows artifact_P)) /\
  ("timestamp ms" ∈ hd [] (csv_rows artifact_P) ->
   exists k,
     timestamp
       {| _reader := {| dr_rows := [["10"; "8"]];
                        dr_fieldnames := Some ["timestamp ms"; "power mW"] |};
          _current_row := row_dict ["timestamp ms"; "power mW"] ["0"; "7"];
          columns := ["power mW"]; finished := false |} = Ok k).
Proof.
  split; [reflexivity|]. split; [reflexivity|].
  apply (timestamp_needs_timestamp_column fs_P "/tmp/P.csv" ["power mW"]
           artifact_P); reflexivity.
Defined.

Lemma fold_insert_member {A} (f : A -> string) (g : A -> PyVal)
    (l : list A) (m : gmap string PyVal) (x : A) :
  NoDup (map f l) -> x ∈ l ->
  fold_left (fun m x => <[f x := g x]> m) l m !! f x = Some (g x).
Proof.
  revert m. induction l as [|y l IH]; intros m Hnd Hin; [inversion Hin|].
  simpl in *. apply NoDup_cons in Hnd as [Hy Hnd].
  apply elem_of_cons in Hin as [->|Hin].
  - rewrite fold_insert_other; [apply lookup_insert_eq|].
    intros z Hz Heq. apply Hy. rewrite <- Heq.
    apply list_elem_of_In, in_map, list_elem_of_In, Hz.
  - apply IH; assumption.
Qed.

Lemma combine_lookup (l k : list string) i x y :
  l !! i = Some x -> k !! i = Some y -> (x, y) ∈ combine l k.
Proof.
  revert k i. induction l as [|a l IH]; intros [|b k] [|i]; simpl;
    try discriminate.
  - intros [= ->] [= ->]. left.
  - intros Hx Hy. right. eapply IH; eassumption.
Qed.

(** Under a header without repeated names, a row's dict holds under each
    name the field at the name's place, and [None] where the row is too
    short. *)
Lemma row_dict_lookup fieldnames row i k :
  NoDup fieldnames -> fieldnames !! i = Some k ->
  row_dict fieldnames row !! k = Some (field_at row i).
Proof.
  intros Hnd Hi. unfold row_dict, field_at.
  rewrite <- (take_drop (List.length row) fieldnames) in Hnd.
  apply NoDup_app in Hnd as (Hnd1 & Hdisj & Hnd2).
  destruct (row !! i) as [v|] eqn:Hrow.
  - assert (Hlt : i < List.length row) by (eapply lookup_lt_Some; eassumption).
    assert (Hk : k ∈ take (List.length row) fieldnames).
    { apply list_elem_of_lookup. exists i. rewrite lookup_take_lt by exact Hlt.
      exact Hi. }
    rewrite (fold_insert_other (fun k => k) (fun _ => PyNone)).
    + apply (fold_insert_member fst (fun kv => PyStr (snd kv)) _ _ (k, v)).
      * rewrite map_fst_combine. exact Hnd1.
      * eapply combine_lookup; eassumption.
    + intros z Hz ->. exact (Hdisj _ Hk Hz).
  - assert (Hge : List.length row <= i) by (apply lookup_ge_None; exact Hrow).
    apply (fold_insert_member (fun k => k) (fun _ => PyNone)).
    + rewrite map_id. exact Hnd2.
    + apply list_elem_of_lookup. exists (i - List.length row).
      rewrite lookup_drop. rewrite <- Hi. f_equal. lia.
Qed.

Lemma next_nonblank_data_rows rows :
  match next_nonblank rows with
  | Some (row, rest) => data_rows rows = row :: data_rows rest
  | None => data_rows rows = []
  end.
Proof.
  induction rows as [|[|x row] rows IH]; simpl; [reflexivity | exact IH |].
  reflexivity.
Qed.

(** X3.  When the header of the artifact repeats no name, an opened reader
    holds under each header name the field at the same place of the first
    row that is not blank, and [None] when that row is too short. *)
Theorem opened_reader_holds_first_data_row fs raw_data_file cols f r i c :
  fs !! raw_data_file = Some f ->
  DeviceReader_init fs raw_data_file cols = Ok r ->
  NoDup (hd [] (csv_rows f)) ->
  hd [] (csv_rows f) !! i = Some c ->
  exists row,
    head (data_rows (tl (csv_rows f))) = Some row /\
    dict_getitem (_current_row r) c = Ok (field_at row i).
Proof.
  intros Hf Hinit Hnd Hi.
  destruct (DeviceReader_init_row _ _ _ _ _ Hf Hinit)
    as (row & rest & Hnext & Hcur & _).
  pose proof (next_nonblank_data_rows (tl (csv_rows f))) as Hdata.
  rewrite Hnext in Hdata. exists row. rewrite Hdata. split; [reflexivity|].
  unfold dict_getitem. rewrite Hcur, (row_dict_lookup _ _ i c Hnd Hi).
  reflexivity.
Qed.

Lemma pop_rows_finished r n fn :
  dr_fieldnames (_reader r) = Some fn -> dr_rows (_reader r) = [] ->
  finished r = true -> pop_rows n r = Ok r.
Proof.
  intros Hfn Hrows Hfin. induction n as [|n IH]; simpl; [reflexivity|].
  assert (Hpop : pop_row r = Ok r).
  { rewrite (pop_row_known _ _ Hfn), Hrows. simpl.
    destruct r as [[rows fns] cur cols fin]; simpl in *. subst. reflexivity. }
  rewrite Hpop. exact IH.
Qed.

Lemma pop_rows_walk n r fn x :
  dr_fieldnames (_reader r) = Some fn ->
  _current_row r = row_dict fn x -> finished r = false ->
  exists r',
    pop_rows n r = Ok r' /\
    finished r' = bool_decide (List.length (data_rows (dr_rows (_reader r))) < n) /\
    _current_row r' =
      row_dict fn (nth (Nat.min n (List.length (data_rows (dr_rows (_reader r)))))
                       (x :: data_rows (dr_rows (_reader r))) []) /\
    columns r' = columns r.
Proof.
  revert r x. induction n as [|n IH]; intros r x Hfn Hcur Hfin.
  - exists r. split; [reflexivity|].
    rewrite bool_decide_eq_false_2 by lia. rewrite Nat.min_0_l. auto.
  - simpl. rewrite (pop_row_known _ _ Hfn).
    pose proof (next_nonblank_data_rows (dr_rows (_reader r))) as Hdata.
    destruct (next_nonblank (dr_rows (_reader r))) as [[row rest]|].
    + rewrite Hdata. simpl rbind.
      destruct (IH {| _reader := {| dr_rows := rest; dr_fieldnames := Some fn |};
                      _current_row := row_dict fn row;
                      columns := columns r; finished := finished r |} row)
        as (r' & Hpops & Hfin' & Hcur' & Hcols'); [reflexivity..|exact Hfin|].
      simpl in *. exists r'. split; [exact Hpops|]. split; [|split].
      * rewrite Hfin'. apply bool_decide_ext. lia.
      * exact Hcur'.
      * exact Hcols'.
    + rewrite Hdata. simpl rbind.
      erewrite pop_rows_finished by reflexivity.
      eexists. split; [reflexivity|].
      cbn [finished _current_row columns List.length].
      rewrite bool_decide_eq_true_2 by lia.
      split; [reflexivity|]. split; [exact Hcur | reflexivity].
Qed.



Lemma opened_reader_holds_first_data_row_witness :
  fs_gaps !! "/tmp/G.csv" = Some artifact_gaps /\
  DeviceReader_init fs_gaps "/tmp/G.csv" ["vbus mV"] =
    Ok {| _reader := {| dr_rows := [[]; ["10"]];
                        dr_fieldnames := Some ["timestamp ms"; "vbus mV"] |};
          _current_row := row_dict ["timestamp ms"; "vbus mV"] ["0"; "100"];
          columns := ["vbus mV"]; finished := false |} /\
  NoDup (hd [] (csv_rows artifact_gaps)) /\
  hd [] (csv_rows artifact_gaps) !! 1 = Some "vbus mV" /\
  exists row,
    head (data_rows (tl (csv_rows artifact_gaps))) = Some row /\
    dict_getitem
      (_current_row
         {| _reader := {| dr_rows := [[]; ["10"]];
                          dr_fieldnames := Some ["timestamp ms"; "vbus mV"] |};
            _current_row := row_dict ["timestamp ms"; "vbus mV"] ["0"; "100"];
            columns := ["vbus mV"]; finished := false |}) "vbus mV"
    = Ok (field_at row 1).
Proof.
  assert (Hnd : NoDup (hd [] (csv_rows artifact_gaps))).
  { simpl. apply NoDup_cons. split.
    - apply not_elem_of_cons. split; [discriminate | apply not_elem_of_nil].
    - apply NoDup_singleton. }
  split; [reflexivity|]. split; [reflexivity|]. split; [exact Hnd|].
  split; [reflexivity|].
  apply (opened_reader_holds_first_data_row fs_gaps "/tmp/G.csv" ["vbus mV"]
           artifact_gaps _ 1 "vbus mV"); [reflexivity | reflexivity | exact Hnd |
                                          reflexivity].
Defined.

(** ** More on [get_data] *)

Lemma open_readers_none_active fs chs files readers :
  open_readers fs chs ∅ files readers = Ok readers.
Proof.
  induction files as [|[device raw] files IH]; simpl; [reflexivity|].
  destruct (decide (device ∈ (∅ : gset string))) as [Hin|_]; [|exact IH].
  exfalso. exact (not_elem_of_empty _ Hin).
Qed.

(** X5.  With no channel active, [get_data] looks at no artifact, writes an
    output that holds the empty header row and nothing else, and returns
    the handle of that output; it does so even when the artifacts are
    missing. *)
Theorem get_data_without_channels fuel fs self outfile :
  active_channels self = [] ->
  get_data (S fuel) fs self outfile =
    {| outfile_rows := Some [[]];
       ended := Some (Ok {| path := outfile; channels := [];
                            sample_rate := sample_rate_hz self |}) |}.
Proof.
  intros Hnone. unfold get_data. rewrite Hnone. simpl map.
  rewrite list_to_set_nil, open_readers_none_active.
  simpl. rewrite elements_empty. reflexivity.
Qed.

Lemma get_data_without_channels_witness :
  active_channels instrument_idle = [] /\
  get_data 1 ∅ instrument_idle "out.csv" =
    {| outfile_rows := Some [[]];
       ended := Some (Ok {| path := "out.csv"; channels := [];
                            sample_rate := sample_rate_hz instrument_idle |}) |}.
Proof.
  split; [reflexivity|].
  apply (get_data_without_channels 0 ∅ instrument_idle "out.csv").
  reflexivity.
Defined.

Lemma open_readers_invariant fs chs (active_devices : gset string) files readers
    readers' (P : string -> DeviceReader -> Prop) :
  (forall d raw f r,
      (d, raw) ∈ files -> d ∈ active_devices -> fs !! raw = Some f ->
      st_size f <> 0%N -> DeviceReader_init fs raw (columns_of chs d) = Ok r ->
      P d r) ->
  (forall d r, readers !! d = Some r -> P d r) ->
  open_readers fs chs active_devices files readers = Ok readers' ->
  forall d r, readers' !! d = Some r -> P d r.
Proof.
  revert readers. induction files as [|[device raw] files IH];
    intros readers Hnew Hold; simpl.
  - intros [= <-]. exact Hold.
  - assert (Hrest : forall d raw f r,
               (d, raw) ∈ files -> d ∈ active_devices -> fs !! raw = Some f ->
               st_size f <> 0%N ->
               DeviceReader_init fs raw (columns_of chs d) = Ok r -> P d r).
    { intros d raw' f r Hin. apply Hnew. right. exact Hin. }
    destruct (decide (device ∈ active_devices)) as [Hact|_]; [|apply IH; auto].
    destruct (fs !! raw) as [f|] eqn:Hf; [|discriminate].
    destruct (st_size f =? 0)%N eqn:Hz; [apply IH; auto|].
    fold (columns_of chs device).
    destruct (DeviceReader_init fs raw (columns_of chs device)) as [r0|e] eqn:Hr0;
      simpl; [|discriminate].
    apply IH; [exact Hrest|].
    intros d r. destruct (decide (device = d)) as [<-|Hne].
    + rewrite lookup_insert_eq. intros [= <-].
      apply (Hnew device raw f r0); [left | exact Hact | exact Hf | | exact Hr0].
      apply N.eqb_neq. exact Hz.
    + rewrite lookup_insert_ne by exact Hne. apply Hold.
Qed.

(** X6.  Every reader [get_data] opens belongs to a device that has an
    active channel and is paired, in [zip(iio_devices, raw_data_files)],
    with an artifact that is there and not zero-length; the reader is not
    finished, and its columns are the source columns of the active channels
    of that device, in the order of the channels. *)
Theorem open_readers_only_active_nonempty fs chs (active_devices : gset string)
    files readers d r :
  open_readers fs chs active_devices files ∅ = Ok readers ->
  readers !! d = Some r ->
  d ∈ active_devices /\
  columns r = columns_of chs d /\
  finished r = false /\
  exists raw_data_file f,
    (d, raw_data_file) ∈ files /\ fs !! raw_data_file = Some f /\
    st_size f <> 0%N.
Proof.
  intros Hopen Hd.
  apply (open_readers_invariant fs chs active_devices files ∅ readers
           (fun d r => d ∈ active_devices /\ columns r = columns_of chs d /\
                       finished r = false /\
                       exists raw f, (d, raw) ∈ files /\ fs !! raw = Some f /\
                                     st_size f <> 0%N));
    [| |exact Hopen|exact Hd].
  - intros d0 raw f r0 Hin Hact Hf Hsz Hinit.
    destruct (DeviceReader_init_row _ _ _ _ _ Hf Hinit)
      as (_ & _ & _ & _ & _ & Hcols & Hfin).
    eauto 10.
  - intros d0 r0 Hempty. rewrite lookup_empty in Hempty. discriminate.
Qed.

Lemma open_readers_only_active_nonempty_witness :
  open_readers fs_degraded (active_channels instrument_degraded)
    (list_to_set ["E"; "X"])
    [("E", "/tmp/E.csv"); ("X", "/tmp/X.csv")] ∅ = Ok readers_degraded /\
  readers_degraded !! "X" = Some reader_X_opened /\
  "X" ∈ (list_to_set ["E"; "X"] : gset string) /\
  columns reader_X_opened =
    columns_of (active_channels instrument_degraded) "X" /\
  finished reader_X_opened = false /\
  exists raw_data_file f,
    (("X", raw_data_file) ∈ [("E", "/tmp/E.csv"); ("X", "/tmp/X.csv")]) /\
    fs_degraded !! raw_data_file = Some f /\ st_size f <> 0%N.
Proof.
  split; [vm_compute; reflexivity|]. split; [vm_compute; reflexivity|].
  apply (open_readers_only_active_nonempty fs_degraded
           (active_channels instrument_degraded) (list_to_set ["E"; "X"])
           [("E", "/tmp/E.csv"); ("X", "/tmp/X.csv")] readers_degraded "X");
    vm_compute; reflexivity.
Defined.

Lemma open_readers_ext fs fs' chs (active_devices : gset string) files readers :
  (forall d raw, (d, raw) ∈ files -> d ∈ active_devices ->
                 fs !! raw = fs' !! raw) ->
  open_readers fs chs active_devices files readers =
  open_readers fs' chs active_devices files readers.
Proof.
  revert readers. induction files as [|[device raw] files IH];
    intros readers Hsame; simpl; [reflexivity|].
  assert (Hrest : forall d raw, (d, raw) ∈ files -> d ∈ active_devices ->
                                fs !! raw = fs' !! raw).
  { intros d raw' Hin. apply Hsame. right. exact Hin. }
  destruct (decide (device ∈ active_devices)) as [Hact|_]; [|apply IH, Hrest].
  unfold DeviceReader_init.
  rewrite <- (Hsame device raw (list_elem_of_here _ _) Hact).
  destruct (fs !! raw) as [f|]; [|reflexivity].
  destruct (st_size f =? 0)%N; [apply IH, Hrest|].
  destruct (DictReader_next _) as [r' [row|e]]; simpl; [apply IH, Hrest|].
  reflexivity.
Qed.

(** X7.  [get_data] reads the artifacts of the devices that have an active
    channel and no other: two file systems that agree on those artifacts
    give the same output and the same end, whatever the artifacts of the
    other devices are, missing ones included. *)
Theorem get_data_ignores_inactive_artifacts fuel fs fs' self outfile :
  (forall d raw_data_file,
      (d, raw_data_file) ∈ combine (iio_devices self) (raw_data_files self) ->
      d ∈ map iio_device (active_channels self) ->
      fs !! raw_data_file = fs' !! raw_data_file) ->
  get_data fuel fs self outfile = get_data fuel fs' self outfile.
Proof.
  intros Hsame. unfold get_data.
  rewrite (open_readers_ext fs fs'); [reflexivity|].
  intros d raw Hin Hact. apply (Hsame d raw Hin).
  apply elem_of_list_to_set in Hact. exact Hact.
Qed.

Lemma fs_X_fs_XY_agree_on_active d raw_data_file :
  (d, raw_data_file) ∈ combine (iio_devices instrument_X_of_XY)
                               (raw_data_files instrument_X_of_XY) ->
  d ∈ map iio_device (active_channels instrument_X_of_XY) ->
  fs_X !! raw_data_file = fs_XY !! raw_data_file.
Proof.
  simpl. intros Hin Hact.
  apply list_elem_of_singleton in Hact as ->.
  apply elem_of_cons in Hin as [[= ->]|Hin]; [reflexivity|].
  apply list_elem_of_singleton in Hin. discriminate.
Defined.

Lemma get_data_ignores_inactive_artifacts_witness :
  (forall d raw_data_file,
      (d, raw_data_file) ∈ combine (iio_devices instrument_X_of_XY)
                                   (raw_data_files instrument_X_of_XY) ->
      d ∈ map iio_device (active_channels instrument_X_of_XY) ->
      fs_X !! raw_data_file = fs_XY !! raw_data_file) /\
  get_data 3 fs_X instrument_X_of_XY "out.csv" =
  get_data 3 fs_XY instrument_X_of_XY "out.csv".
Proof.
  split; [exact fs_X_fs_XY_agree_on_active|].
  apply (get_data_ignores_inactive_artifacts 3 fs_X fs_XY instrument_X_of_XY
           "out.csv" fs_X_fs_XY_agree_on_active).
Defined.

(** ** More on [stop] *)

Lemma later_later n m w : later m (later n w) = later (n + m) w.
Proof. unfold later. simpl. f_equal. lia. Qed.

(** A process still running at the last of [n] polls lets the loop run to
    its end, [n] seconds on. *)
Lemma poll_loop_no_break n h w :
  returncode (store w h) = None ->
  (forall t, t < now w + n -> ended_by t (store w h) = false) ->
  poll_loop n h w = Some (Ok false, later n w).
Proof.
  revert w. induction n as [|n IH]; intros w Hrc Hrun.
  - simpl. unfold ret, later. destruct w; simpl. rewrite Nat.add_0_r.
    reflexivity.
  - change (poll_loop (S n) h w)
      with (bind (Popen_poll h)
              (fun r => match r with
                        | Some _ => ret true
                        | None => bind (sleep 1) (fun _ => poll_loop n h)
                        end) w).
    rewrite (bind_ok _ _ _ None w)
      by (apply Popen_poll_running; [exact Hrc | apply Hrun; lia]).
    rewrite (bind_ok _ _ _ tt (later 1 w)) by reflexivity.
    rewrite IH.
    + rewrite later_later. reflexivity.
    + exact Hrc.
    + intros t Ht. apply Hrun. simpl in Ht. lia.
Qed.

(** A process gone by the last of [S n] polls makes the loop leave at the
    first poll that sees it gone, without sleeping further. *)
Lemma poll_loop_breaks_at n h w te s :
  returncode (store w h) = None ->
  exit_at (store w h) = Some (te, s) -> te <= now w + n ->
  exists w',
    poll_loop (S n) h w = Some (Ok true, w') /\
    now w' = Nat.max (now w) te /\
    returncode (store w' h) = Some s.
Proof.
  revert w. induction n as [|n IH]; intros w Hrc Hexit Hle;
    change (poll_loop (S ?m) h w)
      with (bind (Popen_poll h)
              (fun r => match r with
                        | Some _ => ret true
                        | None => bind (sleep 1) (fun _ => poll_loop m h)
                        end) w).
  - destruct (Popen_poll_ended h w te s Hrc Hexit) as
      (w' & Hpoll & Hnow & Hrc' & _); [lia|].
    exists w'. rewrite (bind_ok _ _ _ _ _ Hpoll).
    split; [reflexivity|]. split; [lia | exact Hrc'].
  - destruct (le_lt_dec te (now w)) as [Hgone|Hlater].
    + destruct (Popen_poll_ended h w te s Hrc Hexit Hgone) as
        (w' & Hpoll & Hnow & Hrc' & _).
      exists w'. rewrite (bind_ok _ _ _ _ _ Hpoll).
      split; [reflexivity|]. split; [lia | exact Hrc'].
    + destruct (IH (later 1 w)) as (w' & Hloop & Hnow & Hrc');
        [exact Hrc | exact Hexit | simpl; lia |].
      exists w'. rewrite (bind_ok _ _ _ None w).
      2:{ apply Popen_poll_running; [exact Hrc|].
          unfold ended_by. rewrite Hexit. apply Nat.leb_gt. lia. }
      rewrite (bind_ok _ _ _ tt (later 1 w)) by reflexivity.
      split; [exact Hloop|]. split; [simpl in Hnow; lia | exact Hrc'].
Qed.

(** X8.  The polling loop of [stop] makes [S n] polls, a second apart.  A
    process that has ended by the last poll makes the loop leave by [break]
    at the first poll that sees it gone, with no more sleep and with its
    status in [returncode]; a process still running at the last poll lets
    the loop sleep its [S n] seconds and run into the [else] branch. *)
Theorem poll_loop_grace_window n h w :
  returncode (store w h) = None ->
  (forall te s,
      exit_at (store w h) = Some (te, s) -> te <= now w + n ->
      exists w',
        poll_loop (S n) h w = Some (Ok true, w') /\
        now w' = Nat.max (now w) te /\
        returncode (store w' h) = Some s) /\
  (ended_by (now w + n) (store w h) = false ->
   poll_loop (S n) h w = Some (Ok false, later (S n) w)).
Proof.
  intros Hrc. split.
  - intros te s. apply poll_loop_breaks_at. exact Hrc.
  - intros Hrun. apply poll_loop_no_break; [exact Hrc|].
    intros t Ht. apply (ended_by_mono t (now w + n)); [lia | exact Hrun].
Qed.

Lemma poll_loop_grace_window_witness :
  returncode (store world_graceful_signalled 0) = None /\
  (forall te s,
      exit_at (store world_graceful_signalled 0) = Some (te, s) ->
      te <= now world_graceful_signalled + 9 ->
      exists w',
        poll_loop 10 0 world_graceful_signalled = Some (Ok true, w') /\
        now w' = Nat.max (now world_graceful_signalled) te /\
        returncode (store w' 0) = Some s) /\
  (ended_by (now world_graceful_signalled + 9)
            (store world_graceful_signalled 0) = false ->
   poll_loop 10 0 world_graceful_signalled =
     Some (Ok false, later 10 world_graceful_signalled)).
Proof.
  split; [reflexivity|].
  apply (poll_loop_grace_window 9 0 world_graceful_signalled). reflexivity.
Defined.

(** *** More on [_read_nonblock] *)

(** X10.  While the writer of the pipe is running, [_read_nonblock] with
    fuel beyond the length of what the pipe holds returns all of it, in
    order, and leaves the pipe empty with O_NONBLOCK set; the clock and the
    rest of the process are as before. *)
Theorem read_nonblock_returns_buffer fuel h w :
  ended_by (now w) (store w h) = false ->
  String.length (stdout (store w h)) < fuel ->
  exists w',
    _read_nonblock fuel h 1024 w = Some (Ok (stdout (store w h)), w') /\
    now w' = now w /\
    store w' h = set_pipe (store w h) "" true.
Proof. apply read_nonblock_drains. Qed.

Lemma read_nonblock_returns_buffer_witness :
  ended_by (now world_stuck) (store world_stuck 0) = false /\
  String.length (stdout (store world_stuck 0)) < 8 /\
  exists w',
    _read_nonblock 8 0 1024 world_stuck =
      Some (Ok (stdout (store world_stuck 0)), w') /\
    now w' = now world_stuck /\
    store w' 0 = set_pipe (store world_stuck 0) "" true.
Proof.
  split; [reflexivity|]. split; [simpl; lia|].
  apply (read_nonblock_returns_buffer 8 0 world_stuck);
    [reflexivity | simpl; lia].
Defined.

Lemma read_loop_after_end fuel h size output w :
  ended_by (now w) (store w h) = true ->
  read_loop fuel h size output w = None.
Proof.
  revert output w. induction fuel as [|fuel IH]; intros output w Hend;
    [reflexivity|].
  simpl. unfold pipe_read_size.
  destruct (stdout (store w h)) as [|c s] eqn:Hbuf.
  - rewrite Hend. apply IH. exact Hend.
  - apply IH. rewrite upd_same. exact Hend.
Qed.

Lemma read_nonblock_after_end fuel h size w :
  ended_by (now w) (store w h) = true ->
  _read_nonblock fuel h size w = None.
Proof.
  intros Hend. unfold _read_nonblock.
  rewrite (bind_ok _ _ _ tt
             (upd w h (set_pipe (store w h) (stdout (store w h)) true)))
    by reflexivity.
  apply read_loop_after_end. rewrite upd_same. exact Hend.
Qed.

(** X11.  Once the writer of the pipe has ended, [_read_nonblock] does not
    return, whatever the fuel and the size: the pipe at end of file gives
    [''] and never the [IOError] that is the loop's only way out. *)
Theorem read_nonblock_hangs_at_eof fuel h size w :
  ended_by (now w) (store w h) = true ->
  _read_nonblock fuel h size w = None.
Proof. apply read_nonblock_after_end. Qed.

Lemma read_nonblock_hangs_at_eof_witness :
  ended_by (now world_graceful_gone) (store world_graceful_gone 0) = true /\
  _read_nonblock 100 0 1024 world_graceful_gone = None.
Proof.
  split; [reflexivity|].
  apply (read_nonblock_hangs_at_eof 100 0 1024 world_graceful_gone).
  reflexivity.
Defined.

(** Were [self.process] set: a process that ends in the last second of the
    grace window,
    after the tenth poll and before the pipe is drained, makes the body of
    [stop]'s loop hang: read through the process's own handle, the loop
    runs into its [else] branch and [_read_nonblock] finds the pipe at end
    of file. *)
Theorem stop_body_hangs_on_late_exit fuel self p raw_data_file w w1 s :
  process self = Some p ->
  Popen_terminate p w = Some (Ok tt, w1) ->
  exit_at (store w1 p) = Some (now w1 + 10, s) ->
  stop_body fuel self p raw_data_file w = None.
Proof.
  intros Hattr Hterm Hexit.
  destruct (Popen_terminate_inv _ _ _ Hterm) as [Hrc1 _].
  assert (Hpoll : poll_loop 10 p w1 = Some (Ok false, later 10 w1)).
  { apply poll_loop_no_break; [exact Hrc1|].
    intros t Ht. unfold ended_by. rewrite Hexit. apply Nat.leb_gt. lia. }
  unfold stop_body. step Hterm. cbv zeta. step Hpoll.
  unfold self_process. rewrite Hattr. step_ret.
  rewrite ?bind_assoc. unfold bind at 1.
  rewrite read_nonblock_after_end; [reflexivity|].
  unfold ended_by. simpl. rewrite Hexit. apply Nat.leb_le. lia.
Qed.

Lemma stop_body_hangs_on_late_exit_witness :
  process (instrument_one (Some 0)) = Some 0 /\
  Popen_terminate 0 world_late = Some (Ok tt, world_late_signalled) /\
  exit_at (store world_late_signalled 0) =
    Some (now world_late_signalled + 10, 15%Z) /\
  stop_body 50 (instrument_one (Some 0)) 0 "/tmp/A.csv" world_late = None.
Proof.
  split; [reflexivity|]. split; [reflexivity|]. split; [reflexivity|].
  apply (stop_body_hangs_on_late_exit 50 (instrument_one (Some 0)) 0
           "/tmp/A.csv" world_late world_late_signalled 15%Z); reflexivity.
Defined.

(** *** What [stop] leaves alone *)

Lemma upd_other w h p h' : h' <> h -> store (upd w h p) h' = store w h'.
Proof.
  intros Hne. unfold upd. simpl.
  destruct (Nat.eqb_spec h' h); [contradiction | reflexivity].
Qed.

Lemma frames_ret {A} hs (a : A) : frames hs (ret a).
Proof. intros w r w' [= <- <-]. auto. Qed.

Lemma frames_raise {A} hs e : frames hs (@raise A e).
Proof. intros w r w' [= <- <-]. auto. Qed.

Lemma frames_bind {A B} hs (c : Py A) (k : A -> Py B) :
  frames hs c -> (forall a, frames hs (k a)) -> frames hs (bind c k).
Proof.
  intros Hc Hk w r w'. unfold bind.
  destruct (c w) as [[[a|e] w1]|] eqn:Hcw; [| |discriminate].
  - intros Hka. destruct (Hc _ _ _ Hcw) as [Hf1 Hs1].
    destruct (Hk a _ _ _ Hka) as [Hf2 Hs2].
    split; [congruence|]. intros h Hh. rewrite Hs2, Hs1; auto.
  - intros [= <- <-]. exact (Hc _ _ _ Hcw).
Qed.

Lemma frames_upd {A} (hs : handle -> Prop) h (c : Py A) :
  hs h ->
  (forall w r w', c w = Some (r, w') -> w' = w \/ exists p, w' = upd w h p) ->
  frames hs c.
Proof.
  intros Hh Hc w r w' Hrun.
  destruct (Hc _ _ _ Hrun) as [->|[p ->]]; [auto|].
  split; [reflexivity|]. intros h' Hh'. apply upd_other. congruence.
Qed.

Lemma frames_send_signal hs sig reaction status h :
  hs h -> frames hs (send_signal sig reaction status h).
Proof.
  intros Hh. apply (frames_upd hs h _ Hh). intros w r w'.
  unfold send_signal. destruct (returncode (store w h));
    intros [= <- <-]; eauto.
Qed.

Lemma frames_terminate hs h : hs h -> frames hs (Popen_terminate h).
Proof.
  intros Hh w r w' Hrun. unfold Popen_terminate in Hrun.
  exact (frames_send_signal hs _ _ _ h Hh _ _ _ Hrun).
Qed.

Lemma frames_kill hs h : hs h -> frames hs (Popen_kill h).
Proof.
  intros Hh w r w' Hrun. unfold Popen_kill in Hrun.
  exact (frames_send_signal hs _ _ _ h Hh _ _ _ Hrun).
Qed.

Lemma frames_poll hs h : hs h -> frames hs (Popen_poll h).
Proof.
  intros Hh. apply (frames_upd hs h _ Hh). intros w r w'. unfold Popen_poll.
  destruct (returncode (store w h)); [intros [= <- <-]; auto|].
  destruct (exit_at (store w h)) as [[te s]|]; [|intros [= <- <-]; auto].
  destruct (te <=? now w)%nat; intros [= <- <-]; eauto.
Qed.

Lemma frames_sleep hs n : frames hs (sleep n).
Proof. intros w r w' [= <- <-]. auto. Qed.

Lemma frames_logger_error hs msg : frames hs (logger_error msg).
Proof. intros w r w' [= <- <-]. auto. Qed.

Lemma frames_get_returncode hs h : frames hs (get_returncode h).
Proof. intros w r w' [= <- <-]. auto. Qed.

Lemma frames_isfile hs f : frames hs (isfile f).
Proof. intros w r w' [= <- <-]. auto. Qed.

Lemma frames_set_nonblock hs h : hs h -> frames hs (set_nonblock h).
Proof.
  intros Hh. apply (frames_upd hs h _ Hh). intros w r w' [= <- <-]. eauto.
Qed.

Lemma frames_pipe_read_size hs h size : hs h -> frames hs (pipe_read_size h size).
Proof.
  intros Hh. apply (frames_upd hs h _ Hh). intros w r w'.
  unfold pipe_read_size. destruct (stdout (store w h)).
  - destruct (ended_by (now w) (store w h)); intros [= <- <-]; auto.
  - intros [= <- <-]. eauto.
Qed.

Lemma frames_pipe_read hs h : hs h -> frames hs (pipe_read h).
Proof.
  intros Hh w r w'. unfold pipe_read.
  destruct (ended_by (now w) (store w h)).
  { intros [= <- <-]. split; [reflexivity|].
    intros h' Hh'. apply upd_other. congruence. }
  destruct (nonblock (store w h)).
  { destruct (stdout (store w h)); intros [= <- <-]; [auto|].
    split; [reflexivity|]. intros h' Hh'. apply upd_other. congruence. }
  destruct (exit_at (store w h)) as [[te s]|]; [|discriminate].
  intros [= <- <-]. split; [reflexivity|].
  intros h' Hh'. simpl. destruct (Nat.eqb_spec h' h); [congruence|reflexivity].
Qed.

Lemma frames_read_loop hs fuel h size output :
  hs h -> frames hs (read_loop fuel h size output).
Proof.
  intros Hh. revert output. induction fuel as [|fuel IH]; intros output w r w';
    simpl; [discriminate|].
  destruct (pipe_read_size h size w) as [[[chunk|e] w1]|] eqn:Hread;
    [| |discriminate].
  - intros Hloop.
    destruct (frames_pipe_read_size hs h size Hh _ _ _ Hread) as [Hf1 Hs1].
    destruct (IH _ _ _ _ Hloop) as [Hf2 Hs2].
    split; [congruence|]. intros h' Hh'. rewrite Hs2, Hs1; auto.
  - intros Hres.
    assert (Hw : w' = w1) by (destruct e; congruence). subst w'.
    exact (frames_pipe_read_size hs h size Hh _ _ _ Hread).
Qed.

Lemma frames_read_nonblock hs fuel h size :
  hs h -> frames hs (_read_nonblock fuel h size).
Proof.
  intros Hh. unfold _read_nonblock. apply frames_bind.
  - apply frames_set_nonblock, Hh.
  - intros _. apply frames_read_loop, Hh.
Qed.

Lemma frames_poll_loop hs n h : hs h -> frames hs (poll_loop n h).
Proof.
  intros Hh. induction n as [|n IH]; simpl; [apply frames_ret|].
  apply frames_bind; [apply frames_poll, Hh|].
  intros [rc|]; [apply frames_ret|].
  apply frames_bind; [apply frames_sleep | intros _; exact IH].
Qed.

Lemma frames_bind_ret {A B} hs (a : A) (k : A -> Py B) :
  frames hs (k a) -> frames hs (bind (ret a) k).
Proof. intros Hk w r w' Hrun. exact (Hk w r w' Hrun). Qed.

Lemma frames_bind_raise {A B} hs e (k : A -> Py B) :
  frames hs (bind (raise e) k).
Proof. intros w r w' [= <- <-]. auto. Qed.

Lemma frames_stop_body fuel self p raw :
  frames (fun h => h = p \/ process self = Some h) (stop_body fuel self p raw).
Proof.
  set (hs := fun h => h = p \/ process self = Some h).
  assert (Hp : hs p) by (left; reflexivity).
  unfold stop_body, self_process.
  apply frames_bind; [apply frames_terminate, Hp|]. intros _. cbv zeta.
  apply frames_bind; [apply frames_poll_loop, Hp|]. intros broke.
  destruct (process self) as [sp|] eqn:Hattr.
  - assert (Hsp : hs sp) by (right; reflexivity).
    apply frames_bind.
    + destruct broke; [apply frames_ret|].
      apply frames_bind_ret.
      apply frames_bind; [apply frames_read_nonblock, Hsp|]. intros drained.
      apply frames_bind_ret.
      apply frames_bind; [apply frames_kill, Hsp|]. intros _.
      apply frames_bind; [apply frames_logger_error|]. intros _.
      apply frames_bind; [apply frames_poll, Hp|].
      intros [rc|]; [apply frames_ret | apply frames_raise].
    + intros output. apply frames_bind_ret.
      apply frames_bind; [apply frames_get_returncode|]. intros rc.
      destruct (bool_decide (rc = Some 15%Z)).
      * apply frames_bind; [apply frames_isfile|].
        intros [|]; [apply frames_ret | apply frames_raise].
      * apply frames_bind_ret.
        apply frames_bind; [apply frames_pipe_read, Hsp|]. intros rest.
        apply frames_bind_ret.
        apply frames_bind; [apply frames_get_returncode|]. intros rc'.
        apply frames_raise.
  - apply frames_bind.
    + destruct broke; [apply frames_ret | apply frames_bind_raise].
    + intros output. apply frames_bind_raise.
Qed.

Lemma frames_weaken {A} (hs hs' : handle -> Prop) (c : Py A) :
  (forall h, hs h -> hs' h) -> frames hs c -> frames hs' c.
Proof.
  intros Hsub Hc w r w' Hrun. destruct (Hc _ _ _ Hrun) as [Hf Hs].
  split; [exact Hf|]. intros h Hh. apply Hs. intros Hin. apply Hh, Hsub, Hin.
Qed.

Lemma frames_stop_loop fuel self l :
  frames (fun h => h ∈ map fst l \/ process self = Some h)
         (stop_loop fuel self l).
Proof.
  induction l as [|[p raw] l IH]; simpl; [apply frames_ret|].
  apply frames_bind.
  - eapply frames_weaken; [|apply frames_stop_body].
    intros h [->|Hh]; [left; left | right; exact Hh].
  - intros _. eapply frames_weaken; [|exact IH].
    intros h [Hh|Hh]; [left; right; exact Hh | right; exact Hh].
Qed.

(** X13.  [stop] changes no file and touches no process other than the
    ones in [self.processes] and the one [self.process] names: every other
    process is, when [stop] returns or raises, as it was. *)
Theorem stop_touches_own_processes_only fuel self w res w' :
  stop fuel self w = Some (res, w') ->
  files w' = files w /\
  forall h, h ∉ processes self -> process self <> Some h ->
            store w' h = store w h.
Proof.
  intros Hrun. unfold stop in Hrun.
  destruct (frames_stop_loop fuel self _ _ _ _ Hrun) as [Hf Hs].
  split; [exact Hf|]. intros h Hout Hattr. apply Hs.
  intros [Hin|Hin]; [|congruence].
  apply Hout. apply list_elem_of_In. apply list_elem_of_In in Hin.
  apply in_map_iff in Hin as ([p raw] & <- & Hin).
  eapply in_combine_l. exact Hin.
Qed.

Lemma stop_touches_own_processes_only_witness :
  stop 1 (instrument_one (Some 0)) world_B_fails =
    Some (Ok tt, world_after_stop_A) /\
  files world_after_stop_A = files world_B_fails /\
  forall h, h ∉ processes (instrument_one (Some 0)) ->
            process (instrument_one (Some 0)) <> Some h ->
            store world_after_stop_A h = store world_B_fails h.
Proof.
  split; [reflexivity|].
  apply (stop_touches_own_processes_only 1 (instrument_one (Some 0))
           world_B_fails (Ok tt) world_after_stop_A).
  reflexivity.
Defined.


(** ** [reset] and [start] *)

Lemma has_space_app s t : has_space (s ++ t)%string = has_space s || has_space t.
Proof.
  induction s as [|a s IH]; [reflexivity|].
  change (Ascii.is_space a || has_space (s ++ t)%string =
          Ascii.is_space a || has_space s || has_space t).
  rewrite IH. apply orb_assoc.
Qed.

(** A stretch without white space goes, whole, into the word being read. *)
Lemma split_go_word t cur rest :
  has_space t = false ->
  split_go cur (t ++ rest)%string =
  split_go (match t with
            | EmptyString => cur
            | _ => Some (match cur with
                         | Some word => (word ++ t)%string
                         | None => t
                         end)
            end) rest.
Proof.
  revert cur. induction t as [|a t IH]; intros cur Hns; [reflexivity|].
  simpl in Hns. apply orb_false_elim in Hns as [Ha Ht].
  change (String a t ++ rest)%string with (String a (t ++ rest)%string).
  simpl split_go. rewrite Ha, (IH _ Ht).
  destruct t as [|b t]; [destruct cur; reflexivity|].
  destruct cur as [word|]; [|reflexivity].
  rewrite string_app_assoc. reflexivity.
Qed.

Lemma split_go_token t a rest :
  has_space t = false -> t <> "" -> Ascii.is_space a = true ->
  split_go None (t ++ String a rest)%string = t :: split_go None rest.
Proof.
  intros Hns Hne Ha. rewrite (split_go_word t None _ Hns).
  destruct t as [|b t]; [congruence|]. simpl. rewrite Ha. reflexivity.
Qed.

Lemma string_of_uint_no_space d :
  has_space (NilEmpty.string_of_uint d) = false.
Proof. induction d; simpl; auto. Qed.

Lemma str_of_int_no_space n : has_space (str_of_int n) = false.
Proof.
  unfold str_of_int, NilEmpty.string_of_int.
  destruct (Z.to_int n); [|simpl]; apply string_of_uint_no_space.
Qed.

Lemma string_of_uint_nonempty d : d <> Nil -> NilEmpty.string_of_uint d <> "".
Proof. destruct d; simpl; congruence. Qed.

Lemma str_of_int_nonempty n : str_of_int n <> "".
Proof.
  unfold str_of_int, NilEmpty.string_of_int.
  destruct n as [|p|p]; simpl; [discriminate| |discriminate].
  apply string_of_uint_nonempty, Unsigned.to_uint_nonnil.
Qed.

(** The words of a command, when none of its parameters holds white space
    or is empty. *)
Lemma py_split_substitute cfg outfile device :
  has_space (iio_capture cfg) = false -> iio_capture cfg <> "" ->
  has_space (host cfg) = false -> host cfg <> "" ->
  has_space outfile = false -> outfile <> "" ->
  has_space device = false -> device <> "" ->
  py_split (substitute cfg outfile device) =
    [iio_capture cfg; "-n"; host cfg; "-b"; str_of_int (buffer_size cfg);
     "-c"; "-f"; outfile; device].
Proof.
  intros Hc1 Hc2 Hh1 Hh2 Ho1 Ho2 Hd1 Hd2. unfold py_split.
  change (substitute cfg outfile device)
    with (String "010"
            (iio_capture cfg ++ String " "
               ("-n" ++ String " "
                  (host cfg ++ String " "
                     ("-b" ++ String " "
                        (str_of_int (buffer_size cfg) ++ String " "
                           ("-c" ++ String " "
                              ("-f" ++ String " "
                                 (outfile ++ String " "
                                    (device ++ String "010" "")))))))))%string).
  change (split_go None (String "010" ?s)) with (split_go None s).
  repeat (rewrite split_go_token;
          [|first [assumption | reflexivity | apply str_of_int_no_space]
           |first [assumption | discriminate | apply str_of_int_nonempty]
           |reflexivity]).
  reflexivity.
Qed.

Lemma reset_loop_shape cfg stems n devices b :
  commands (reset_loop cfg stems n devices b) =
    commands b ++
    imap (fun i d => substitute cfg (raw_path stems (n + i) d) d) devices /\
  raw_files (reset_loop cfg stems n devices b) =
    raw_files b ++ imap (fun i d => raw_path stems (n + i) d) devices.
Proof.
  revert n b. induction devices as [|device rest IH]; intros n b; simpl.
  - rewrite !app_nil_r. auto.
  - destruct (IH (S n)
                {| commands := commands b ++
                     [substitute cfg (stems n ++ ("_" ++ device ++ ".csv"))%string
                                 device];
                   raw_files := raw_files b ++
                     [(stems n ++ ("_" ++ device ++ ".csv"))%string];
                   debug_log := debug_log b ++ ["ACME cape command: None"];
                   disk := <[(stems n ++ ("_" ++ device ++ ".csv"))%string :=
                               {| st_size := 0; csv_rows := [] |}]> (disk b) |})
      as [Hc Hr].
    rewrite Hc, Hr. simpl. rewrite <- !app_assoc. simpl.
    unfold raw_path. rewrite Nat.add_0_r.
    split; do 2 f_equal; apply imap_ext; intros i d _; simpl;
      replace (n + S i) with (S (n + i)) by lia; reflexivity.
Qed.

Lemma reset_loop_disk cfg stems n devices b f :
  disk (reset_loop cfg stems n devices b) !! f =
    if decide (f ∈ imap (fun i d => raw_path stems (n + i) d) devices)
    then Some {| st_size := 0; csv_rows := [] |}
    else disk b !! f.
Proof.
  revert n b. induction devices as [|device rest IH]; intros n b; simpl.
  - destruct (decide (f ∈ [])) as [Hin|_]; [inversion Hin | reflexivity].
  - rewrite IH. simpl. rewrite Nat.add_0_r. fold (raw_path stems n device).
    assert (Hext : imap (fun i d => raw_path stems (S n + i) d) rest =
                   imap ((fun i d => raw_path stems (n + i) d) ∘ S) rest).
    { apply imap_ext. intros i d _. simpl.
      replace (n + S i) with (S (n + i)) by lia. reflexivity. }
    rewrite <- Hext. cbn [Nat.add].
    destruct (decide (f ∈ imap (fun i d => raw_path stems (S (n + i)) d) rest))
      as [Hin|Hout].
    + rewrite decide_True by (right; exact Hin). reflexivity.
    + destruct (decide (f = raw_path stems n device)) as [->|Hne].
      * rewrite decide_True by left. apply lookup_insert_eq.
      * rewrite decide_False.
        -- apply lookup_insert_ne. congruence.
        -- intros [Heq|Hin]%elem_of_cons; contradiction.
Qed.

(** X15.  After [reset], the command of the device at place [i], split as
    [start] splits it, is the argument list [iio_capture -n host -b
    buffer_size -c -f outfile device] with the device's own new artifact
    as [outfile], which is what [raw_data_files] holds at place [i],
    whenever the path of the binary, the host, the device and the path that
    [mkstemp] returns are without white space and the first three are not
    empty. *)
Theorem reset_start_argv cfg stems devices fs i device :
  devices !! i = Some device ->
  has_space (iio_capture cfg) = false -> iio_capture cfg <> "" ->
  has_space (host cfg) = false -> host cfg <> "" ->
  has_space device = false -> device <> "" ->
  has_space (stems i) = false ->
  raw_files (reset cfg stems devices fs) !! i =
    Some (raw_path stems i device) /\
  start_argv (commands (reset cfg stems devices fs)) !! i =
    Some [iio_capture cfg; "-n"; host cfg; "-b";
          str_of_int (buffer_size cfg); "-c"; "-f";
          raw_path stems i device; device].
Proof.
  intros Hi Hc1 Hc2 Hh1 Hh2 Hd1 Hd2 Hs.
  destruct (reset_loop_shape cfg stems 0 devices
              {| commands := []; raw_files := []; debug_log := []; disk := fs |})
    as [Hcmds Hraws].
  unfold reset, start_argv. rewrite Hcmds, Hraws. simpl.
  rewrite list_lookup_fmap, !list_lookup_imap, Hi. simpl.
  split; [reflexivity|]. f_equal.
  apply py_split_substitute; try assumption.
  - unfold raw_path. rewrite has_space_app, Hs.
    change ("_" ++ device ++ ".csv")%string
      with (String "_" (device ++ ".csv")%string).
    simpl. rewrite has_space_app, Hd1. reflexivity.
  - unfold raw_path. destruct (stems i); discriminate.
Qed.

Lemma reset_start_argv_witness :
  ["iio:device0"; "iio:device1"] !! 1 = Some "iio:device1" /\
  has_space (iio_capture settings_default) = false /\
  iio_capture settings_default <> "" /\
  has_space (host settings_default) = false /\
  host settings_default <> "" /\
  has_space "iio:device1" = false /\ "iio:device1" <> "" /\
  has_space (stems_tmp 1) = false /\
  raw_files (reset settings_default stems_tmp ["iio:device0"; "iio:device1"] ∅)
    !! 1 = Some (raw_path stems_tmp 1 "iio:device1") /\
  start_argv (commands (reset settings_default stems_tmp
                          ["iio:device0"; "iio:device1"] ∅)) !! 1 =
    Some [iio_capture settings_default; "-n"; host settings_default; "-b";
          str_of_int (buffer_size settings_default); "-c"; "-f";
          raw_path stems_tmp 1 "iio:device1"; "iio:device1"].
Proof.
  split; [reflexivity|]. split; [reflexivity|]. split; [discriminate|].
  split; [reflexivity|]. split; [discriminate|]. split; [reflexivity|].
  split; [discriminate|]. split; [reflexivity|].
  apply (reset_start_argv settings_default stems_tmp
           ["iio:device0"; "iio:device1"] ∅ 1 "iio:device1");
    first [reflexivity | discriminate].
Defined.

Lemma reset_artifacts cfg stems devices fs :
  List.length (commands (reset cfg stems devices fs)) = List.length devices /\
  List.length (raw_files (reset cfg stems devices fs)) = List.length devices /\
  (forall raw, raw ∈ raw_files (reset cfg stems devices fs) ->
     disk (reset cfg stems devices fs) !! raw =
       Some {| st_size := 0; csv_rows := [] |}) /\
  (forall f, f ∉ raw_files (reset cfg stems devices fs) ->
     disk (reset cfg stems devices fs) !! f = fs !! f).
Proof.
  destruct (reset_loop_shape cfg stems 0 devices
              {| commands := []; raw_files := []; debug_log := []; disk := fs |})
    as [Hcmds Hraws].
  unfold reset. rewrite Hcmds, Hraws. simpl.
  rewrite !length_imap. split; [reflexivity|]. split; [reflexivity|].
  split; intros f Hf; rewrite reset_loop_disk; simpl.
  - rewrite decide_True by exact Hf. reflexivity.
  - rewrite decide_False by exact Hf. reflexivity.
Qed.

(** X16.  [reset] leaves one command and one artifact for each device and
    starts both lists afresh; every artifact it names is on disk with the
    length zero, and every other file is as it was. *)
Theorem reset_makes_empty_artifacts cfg stems devices fs :
  List.length (commands (reset cfg stems devices fs)) = List.length devices /\
  List.length (raw_files (reset cfg stems devices fs)) = List.length devices /\
  (forall raw, raw ∈ raw_files (reset cfg stems devices fs) ->
     disk (reset cfg stems devices fs) !! raw =
       Some {| st_size := 0; csv_rows := [] |}) /\
  (forall f, f ∉ raw_files (reset cfg stems devices fs) ->
     disk (reset cfg stems devices fs) !! f = fs !! f).
Proof. apply reset_artifacts. Qed.

Lemma open_readers_all_empty fs chs (active_devices : gset string) files readers :
  (forall d raw, (d, raw) ∈ files ->
                 exists f, fs !! raw = Some f /\ st_size f = 0%N) ->
  open_readers fs chs active_devices files readers = Ok readers.
Proof.
  revert readers. induction files as [|[device raw] files IH];
    intros readers Hall; simpl; [reflexivity|].
  assert (Hrest : forall d raw, (d, raw) ∈ files ->
                                exists f, fs !! raw = Some f /\ st_size f = 0%N).
  { intros d raw' Hin. apply (Hall d raw'). right. exact Hin. }
  destruct (decide (device ∈ active_devices)); [|apply IH, Hrest].
  destruct (Hall device raw (list_elem_of_here _ _)) as (f & Hf & Hsz).
  rewrite Hf, Hsz. simpl. apply IH, Hrest.
Qed.

(** X17.  Right after [reset], before a capture has written anything,
    [get_data] with a channel active opens no reader, all the artifacts
    being zero-length; it writes the header and raises a [KeyError] when
    the first row looks for the reader of the first channel's device. *)
Theorem get_data_right_after_reset cfg stems fs self fuel outfile :
  raw_data_files self = raw_files (reset cfg stems (iio_devices self) fs) ->
  active_channels self <> [] ->
  get_data (S fuel) (disk (reset cfg stems (iio_devices self) fs)) self outfile =
    {| outfile_rows := Some [header_of self];
       ended := Some (Raise KeyError) |}.
Proof.
  intros Hraws Hchs.
  destruct (reset_artifacts cfg stems (iio_devices self) fs)
    as (_ & _ & Hempty & _).
  unfold get_data. rewrite open_readers_all_empty.
  - pose proof (active_devices_nonempty _ Hchs) as Hact.
    simpl merge_loop.
    destruct (elements _) as [|d ds]; [congruence|].
    destruct (active_channels self) as [|c chs] eqn:Hc; [congruence|].
    simpl build_row. unfold dict_getitem at 1. rewrite lookup_empty. simpl.
    unfold header_of. rewrite Hc. reflexivity.
  - intros d raw Hin. exists {| st_size := 0; csv_rows := [] |}.
    split; [|reflexivity]. apply Hempty.
    rewrite <- Hraws. apply list_elem_of_In. apply list_elem_of_In in Hin.
    exact (in_combine_r _ _ d raw Hin).
Qed.

Lemma get_data_right_after_reset_witness :
  raw_data_files instrument_fresh =
    raw_files (reset settings_default stems_tmp (iio_devices instrument_fresh) ∅) /\
  active_channels instrument_fresh <> [] /\
  get_data 1 (disk (reset settings_default stems_tmp
                      (iio_devices instrument_fresh) ∅))
           instrument_fresh "out.csv" =
    {| outfile_rows := Some [header_of instrument_fresh];
       ended := Some (Raise KeyError) |}.
Proof.
  split; [reflexivity|]. split; [discriminate|].
  apply (get_data_right_after_reset settings_default stems_tmp ∅
           instrument_fresh 0 "out.csv"); [reflexivity | discriminate].
Defined.

(** ** [stop] and [get_data] as the class runs them *)

Lemma Popen_terminate_signalled h w w1 :
  Popen_terminate h w = Some (Ok tt, w1) ->
  signalled (store w1 h) = SIGTERM :: signalled (store w h) /\
  stdout (store w1 h) = stdout (store w h).
Proof.
  unfold Popen_terminate, send_signal.
  destruct (returncode (store w h)); [discriminate|].
  intros [= <-]. rewrite upd_same. simpl. auto.
Qed.

(** C4.  With [self.process] unset, as the class leaves it, a process that
    is still running at the tenth poll is never killed: [stop] makes its
    ten polls and sleeps its ten seconds, and raises an [AttributeError]
    where the [else] branch reads [self.process] to drain the pipe.  The
    world it leaves is the one the SIGTERM left, ten seconds on: the
    process has been sent the SIGTERM and nothing else, its pipe has not
    been read, and no 'Could not terminate' is raised. *)
Theorem stop_timeout_raises_before_kill fuel self w w1 p ps raw raws :
  process self = None ->
  processes self = p :: ps ->
  raw_data_files self = raw :: raws ->
  Popen_terminate p w = Some (Ok tt, w1) ->
  ended_by (now w1 + 9) (store w1 p) = false ->
  stop fuel self w = Some (Raise AttributeError, later 10 w1) /\
  signalled (store (later 10 w1) p) = SIGTERM :: signalled (store w p) /\
  stdout (store (later 10 w1) p) = stdout (store w p) /\
  ended_by (now w1 + 9) (store (later 10 w1) p) = false.
Proof.
  intros Hattr Hps Hraws Hterm Hrun.
  destruct (Popen_terminate_inv _ _ _ Hterm) as [Hrc1 _].
  destruct (Popen_terminate_signalled _ _ _ Hterm) as [Hsig Hout].
  assert (Hpoll : poll_loop 10 p w1 = Some (Ok false, later 10 w1)).
  { apply poll_loop_no_break; [exact Hrc1|].
    intros t Ht. apply (ended_by_mono t (now w1 + 9)); [lia | exact Hrun]. }
  split; [|split; [exact Hsig | split; [exact Hout | exact Hrun]]].
  unfold stop. rewrite Hps, Hraws. simpl.
  apply bind_raise. unfold stop_body. step Hterm. cbv zeta. step Hpoll.
  unfold self_process. rewrite Hattr. reflexivity.
Qed.

Lemma stop_timeout_raises_before_kill_witness :
  process (instrument_one None) = None /\
  processes (instrument_one None) = [0] /\
  raw_data_files (instrument_one None) = ["/tmp/A.csv"] /\
  Popen_terminate 0 world_stuck = Some (Ok tt, world_stuck_signalled) /\
  ended_by (now world_stuck_signalled + 9) (store world_stuck_signalled 0)
    = false /\
  stop 8 (instrument_one None) world_stuck =
    Some (Raise AttributeError, later 10 world_stuck_signalled) /\
  signalled (store (later 10 world_stuck_signalled) 0) =
    SIGTERM :: signalled (store world_stuck 0) /\
  stdout (store (later 10 world_stuck_signalled) 0) =
    stdout (store world_stuck 0) /\
  ended_by (now world_stuck_signalled + 9)
           (store (later 10 world_stuck_signalled) 0) = false.
Proof.
  do 5 (split; [reflexivity|]).
  apply (stop_timeout_raises_before_kill 8 (instrument_one None) world_stuck
           world_stuck_signalled 0 [] "/tmp/A.csv" []); reflexivity.
Defined.

(** C5.  With device [F] at timestamp 10 and device [S] at timestamp 5,
    [get_data] opens both readers, whose rows hold the timestamps as the
    strings ["10"] and ["5"], writes the header, and raises a [TypeError]
    while it builds the first row: the device to advance is never chosen,
    by number or otherwise. *)
Theorem get_data_FS_raises fuel :
  open_readers fs_FS (active_channels instrument_FS) active_FS
    (combine (iio_devices instrument_FS) (raw_data_files instrument_FS)) ∅
  = Ok readers_FS /\
  (r <- dict_getitem readers_FS "F" ;; timestamp r) = Ok (PyStr "10") /\
  (r <- dict_getitem readers_FS "S" ;; timestamp r) = Ok (PyStr "5") /\
  get_data (S fuel) fs_FS instrument_FS "out.csv" =
    {| outfile_rows := Some [[PyStr "bus_F"; PyStr "bus_S"]];
       ended := Some (Raise TypeError) |}.
Proof. repeat split; vm_compute; reflexivity. Qed.

Lemma stop_loop_app fuel self l1 l2 w :
  stop_loop fuel self (l1 ++ l2) w =
  bind (stop_loop fuel self l1) (fun _ => stop_loop fuel self l2) w.
Proof.
  revert w. induction l1 as [|[p raw] l1 IH]; intros w; simpl; [reflexivity|].
  rewrite bind_assoc. unfold bind.
  destruct (stop_body fuel self p raw w) as [[[[]|e] w1]|]; try reflexivity.
  rewrite IH. reflexivity.
Qed.

(** X14.  [stop] gives up at the first device whose pass raises: when the
    passes for the devices before it have returned and its own pass
    raises, [stop] raises that exception and leaves the world as that pass
    left it, so that no later device is handled: a process that is neither
    one of the earlier devices' nor this device's nor the one
    [self.process] names is as it was, and has not been sent the SIGTERM. *)
Theorem stop_fails_fast fuel self w passed p raw_data_file rest w1 e w' :
  combine (processes self) (raw_data_files self) =
    passed ++ (p, raw_data_file) :: rest ->
  stop_loop fuel self passed w = Some (Ok tt, w1) ->
  stop_body fuel self p raw_data_file w1 = Some (Raise e, w') ->
  stop fuel self w = Some (Raise e, w') /\
  forall h, h ∉ map fst passed -> h <> p -> process self <> Some h ->
            store w' h = store w h.
Proof.
  intros Hzip Hpassed Hbody. split.
  - unfold stop. rewrite Hzip, stop_loop_app, (bind_ok _ _ _ _ _ Hpassed).
    simpl. apply (bind_raise _ _ _ _ _ Hbody).
  - intros h Hout Hne Hattr.
    destruct (frames_stop_loop fuel self passed _ _ _ Hpassed) as [_ Hs1].
    destruct (frames_stop_body fuel self p raw_data_file _ _ _ Hbody)
      as [_ Hs2].
    rewrite Hs2, Hs1; [reflexivity | |]; intros [Hin|Hin]; congruence.
Qed.

Lemma stop_fails_fast_witness :
  combine (processes (instrument_two None))
          (raw_data_files (instrument_two None)) =
    [] ++ (0, "/tmp/A.csv") :: [(1, "/tmp/B.csv")] /\
  stop_loop 1 (instrument_two None) [] world_B_fails =
    Some (Ok tt, world_B_fails) /\
  stop_body 1 (instrument_two None) 0 "/tmp/A.csv" world_B_fails =
    Some (Raise AttributeError, world_after_first_pass) /\
  stop 1 (instrument_two None) world_B_fails =
    Some (Raise AttributeError, world_after_first_pass) /\
  forall h, h ∉ map fst ([] : list (handle * string)) -> h <> 0 ->
            process (instrument_two None) <> Some h ->
            store world_after_first_pass h = store world_B_fails h.
Proof.
  split; [reflexivity|]. split; [reflexivity|]. split; [reflexivity|].
  apply (stop_fails_fast 1 (instrument_two None) world_B_fails [] 0
           "/tmp/A.csv" [(1, "/tmp/B.csv")] world_B_fails AttributeError
           world_after_first_pass); reflexivity.
Defined.

(** With [self.process] set to the handle of device [A], the pass for [A]
    returns and the pass for [B], whose artifact is not on disk, raises:
    [stop] stops there with that exception. *)
Lemma stop_fails_at_second_device fuel :
  outcome (stop_loop fuel instrument_B_unwritten [(0, "/tmp/A.csv")]
             world_B_fails) = Some (Ok tt) /\
  outcome (stop fuel instrument_B_unwritten world_B_fails) =
    Some (Raise (HostError OutputCsvNotGenerated)).
Proof. split; vm_compute; reflexivity. Qed.
